(** * sugar.middleware.speedtracer: the SpeedTracer middleware

    A shallow embedding of [src/sugar/middleware/speedtracer.py] and the
    properties of its call-stack recorder, its request hooks and its
    filter construction.

    Conventions of the embedding.

    - [self] (the middleware instance) and the interpreter's world (clock,
      allocator, uuid source, cache, output streams, [sys.settrace]) are
      threaded explicitly through a state-and-exception monad [M].
    - Python lists keep their order: [call_stack.append] adds at the END
      and [call_stack.pop()] removes the LAST element.
    - Timestamps are Python floats.  Nothing in the module depends on how
      floats round, so the development is parametric in the type of
      timestamps and in its subtraction ([Platform]).
    - Line 2 of the module is [from __future__ import print_function].
      With it [print] is an ordinary name bound to a builtin function, so
      the three statements of the form [print >>sys.stderr, msg] (lines
      71, 75 and 129) are expression statements building a tuple whose
      first component is [print >> sys.stderr]; evaluating it raises
      [TypeError] (unsupported operand types for [>>]).  They are embedded
      as [print_rshift_stderr], which raises.  The call [print(...)] on
      line 89 is a regular call and writes to [stdout]. *)

From Stdlib Require Import ZArith String Ascii List Lia.
From stdpp Require Import base option list strings gmap.

Open Scope string_scope.
Open Scope list_scope.

(** ** The platform: what the module imports *)

(** [time.time], [uuid.uuid4], [id], [re] and the cache's expiry rule are
    library code.  Reads of the clock, uuid draws and allocations are
    numbered; the platform says what the n-th one yields. *)
Class Platform := {
  float : Type;
  float_sub : float -> float -> float;        (* [a - b] on floats *)
  float_leb : float -> float -> bool;         (* [a <= b] on floats *)
  clock : nat -> float;                       (* n-th value of [time.time()] *)
  uuid4 : nat -> string;                      (* [str] of the n-th [uuid.uuid4()] *)
  address : nat -> Z;                         (* [id] of the n-th record allocated *)
  regex : Type;                               (* compiled patterns *)
  re_compile : string -> option regex;        (* [None]: [re.error] *)
  re_match : regex -> string -> bool;         (* [r.match(s)] is not [None] *)
  re_escape : string -> string;
  (* the cache backend's rule: an entry written at [t] with timeout [ttl]
     is gone at time [now] *)
  expired : float -> Z -> float -> bool
}.

(** ** Strings *)

(** [s[n:]] *)
Fixpoint str_drop (n : nat) (s : string) : string :=
  match n, s with
  | O, _ => s
  | S n', String _ s' => str_drop n' s'
  | S _, EmptyString => EmptyString
  end.

(** [s.startswith(p)] *)
Definition startswith (s p : string) : bool := String.prefix p s.

Definition ascii_lower (c : ascii) : ascii :=
  let n := nat_of_ascii c in
  if (65 <=? n)%nat && (n <=? 90)%nat then ascii_of_nat (n + 32) else c.

(** [s.lower()] on ASCII *)
Fixpoint str_lower (s : string) : string :=
  match s with
  | EmptyString => EmptyString
  | String c s' => String (ascii_lower c) (str_lower s')
  end.

Definition nonempty (s : string) : bool :=
  match s with EmptyString => false | _ => true end.

(** ** Exceptions and the monad *)

Inductive exn := TypeError | ValueError | AttributeError | KeyError | ReError.

Inductive result (A : Type) :=
| Ok (a : A)
| Raise (e : exn).
Arguments Ok {A} a.
Arguments Raise {A} e.

Definition M (S A : Type) : Type := S -> result A * S.

Definition ret {S A} (a : A) : M S A := fun s => (Ok a, s).
Definition raise {S A} (e : exn) : M S A := fun s => (Raise e, s).
Definition bind {S A B} (m : M S A) (k : A -> M S B) : M S B :=
  fun s => match m s with
           | (Ok a, s') => k a s'
           | (Raise e, s') => (Raise e, s')
           end.
Definition gets {S A} (f : S -> A) : M S A := fun s => (Ok (f s), s).
Definition modify {S} (f : S -> S) : M S unit := fun s => (Ok tt, f s).

Definition exn_eqb (a b : exn) : bool :=
  match a, b with
  | TypeError, TypeError | ValueError, ValueError
  | AttributeError, AttributeError | KeyError, KeyError
  | ReError, ReError => true
  | _, _ => false
  end.

(** [try: m  except e: handler] *)
Definition try_except {S A} (m : M S A) (e : exn) (handler : M S A) : M S A :=
  fun s => match m s with
           | (Raise e', s') => if exn_eqb e' e then handler s' else (Raise e', s')
           | r => r
           end.

(** A pure computation that may raise. *)
Definition lift {S A} (r : result A) : M S A := fun s => (r, s).

Notation "'do' x <- m ; k" := (bind m (fun x => k))
  (at level 10, x name, m at level 100, k at level 200).
Notation "m ;; k" := (bind m (fun _ => k))
  (at level 100, k at level 200, right associativity).

(** [a % b] for a [str] template [a] and a single non-tuple argument whose
    [str] is [arg].  The conversions modelled are [%s] and [%%]; a template
    that does not use its argument exactly once raises [TypeError], as in
    Python.  Any other conversion is outside the modelled fragment and is
    mapped to [ValueError]; every statement that formats a key assumes
    [template_ok], which keeps the template inside the fragment. *)
Fixpoint pct_scan (t : string) (pending used : bool) (arg : string) : result string :=
  match t with
  | EmptyString =>
      if pending then Raise ValueError
      else if used then Ok EmptyString else Raise TypeError
  | String c t' =>
      if pending then
        if Ascii.eqb c "s" then
          if used then Raise TypeError
          else match pct_scan t' false true arg with
               | Ok r => Ok (arg +:+ r)
               | Raise e => Raise e
               end
        else if Ascii.eqb c "%" then
          match pct_scan t' false used arg with
          | Ok r => Ok (String "%" r)
          | Raise e => Raise e
          end
        else Raise ValueError
      else if Ascii.eqb c "%" then pct_scan t' true used arg
      else match pct_scan t' false used arg with
           | Ok r => Ok (String c r)
           | Raise e => Raise e
           end
  end.

Definition pct_format (template arg : string) : result string :=
  pct_scan template false false arg.

(** The template has exactly one [%s] and otherwise only [%%] and plain
    characters. *)
Fixpoint template_scan (t : string) (pending used : bool) : bool :=
  match t with
  | EmptyString => negb pending && used
  | String c t' =>
      if pending then
        if Ascii.eqb c "s" then negb used && template_scan t' false true
        else if Ascii.eqb c "%" then template_scan t' false used
        else false
      else if Ascii.eqb c "%" then template_scan t' true used
      else template_scan t' false used
  end.

Definition template_ok (template : string) : bool :=
  template_scan template false false.

(** ** Data model *)

Section WithPlatform.
Context {P : Platform}.

#[local] Set Warnings "-register-all".

(** The [range] dict of a record: [{"start_time": t}] while the frame is
    live, the dict built by [_build_range] once it returned. *)
Inductive range :=
| StartOnly (start_time : float)
| Range (start end_ duration : float).

Record sourceCodeLocation := {
  className : string;
  methodName : string;
  lineNumber : Z
}.

Inductive op_type := METHOD | HTTP.

Record operation := {
  location : option sourceCodeLocation;   (* key [sourceCodeLocation]; absent on the HTTP root *)
  type : op_type;
  label : string
}.

(** One record of the recorder ([new_record]); the HTTP root of a document
    has the same keys. *)
Inductive span := Span {
  span_id : Z;
  span_operation : operation;
  children : list span;
  span_range : range
}.

(** The value of [data['trace']]. *)
Record trace := {
  trace_id : string;
  application : string;
  date : float;
  trace_range : range;
  frameStack : span
}.

(** What [cache.get(key, {})] returns and [json.dumps] receives. *)
Inductive payload :=
| EmptyDict
| Data (t : trace).

(** The parts of a Python frame the callback reads. *)
Record frame := {
  co_filename : string;
  co_name : string;
  f_lineno : Z;
  f_module : option string;   (* [inspect.getmodule(code).__name__]; [None]: no module *)
  f_self_class : option string (* [f_locals['self'].__class__.__name__]; [None]: KeyError or AttributeError *)
}.

(** The [event] argument of a trace function. *)
Inductive event := EvCall | EvReturn | EvLine | EvException | EvCCall | EvCReturn | EvCException.

Inductive line_out :=
| DebugLine (ev : event) (name filename : string) (lineno : Z).

(** [self]: the instance attributes. *)
Record middleware := {
  file_filter : regex;
  traces : list span;
  call_stack : list span
}.

(** The interpreter and its libraries. *)
Record world := {
  reads : nat;                                   (* calls of [time.time()] so far *)
  allocs : nat;                                  (* records allocated so far *)
  uuids : nat;                                   (* uuids drawn so far *)
  cache : gmap string (trace * float * Z);       (* value, time written, timeout *)
  stdout : list line_out;
  stderr : list string;                          (* no statement of the module writes it *)
  tracing : bool                                 (* [sys.settrace] holds [self.trace_callback] *)
}.

Definition state : Type := middleware * world.

Definition set_traces (t : list span) (s : state) : state :=
  ({| file_filter := file_filter s.1; traces := t; call_stack := call_stack s.1 |}, s.2).

Definition set_call_stack (c : list span) (s : state) : state :=
  ({| file_filter := file_filter s.1; traces := traces s.1; call_stack := c |}, s.2).

Definition on_world (f : world -> world) (s : state) : state := (s.1, f s.2).

Definition tick (w : world) : world :=
  {| reads := S (reads w); allocs := allocs w; uuids := uuids w;
     cache := cache w; stdout := stdout w; stderr := stderr w;
     tracing := tracing w |}.

Definition alloc (w : world) : world :=
  {| reads := reads w; allocs := S (allocs w); uuids := uuids w;
     cache := cache w; stdout := stdout w; stderr := stderr w;
     tracing := tracing w |}.

Definition draw (w : world) : world :=
  {| reads := reads w; allocs := allocs w; uuids := S (uuids w);
     cache := cache w; stdout := stdout w; stderr := stderr w;
     tracing := tracing w |}.

Definition write_stdout (l : line_out) (w : world) : world :=
  {| reads := reads w; allocs := allocs w; uuids := uuids w;
     cache := cache w; stdout := stdout w ++ [l]; stderr := stderr w;
     tracing := tracing w |}.

Definition set_tracing (on : bool) (w : world) : world :=
  {| reads := reads w; allocs := allocs w; uuids := uuids w;
     cache := cache w; stdout := stdout w; stderr := stderr w;
     tracing := on |}.

Definition set_cache (c : gmap string (trace * float * Z)) (w : world) : world :=
  {| reads := reads w; allocs := allocs w; uuids := uuids w;
     cache := c; stdout := stdout w; stderr := stderr w;
     tracing := tracing w |}.

(** [time.time()] *)
Definition time_time : M state float :=
  fun s => (Ok (clock (reads s.2)), on_world tick s).

(** [id(new_record)] of a freshly built record *)
Definition id_fresh : M state Z :=
  fun s => (Ok (address (allocs s.2)), on_world alloc s).

(** [str(uuid.uuid4())] *)
Definition uuid_uuid4 : M state string :=
  fun s => (Ok (uuid4 (uuids s.2)), on_world draw s).

(** [print(msg)] with [print_function] in force *)
Definition print (l : line_out) : M state unit :=
  modify (on_world (write_stdout l)).

(** [print >>sys.stderr, msg] with [print_function] in force: the operands
    of [>>] are a builtin function and a file. *)
Definition print_rshift_stderr {S} (msg : string) : M S unit := raise TypeError.

(** [sys.settrace(f)] *)
Definition sys_settrace (on : bool) : M state unit :=
  modify (on_world (set_tracing on)).

(** ** The recorder *)

(** [django.conf.settings]; [None] is an attribute that is not set.
    [SPEEDTRACER_FILE_FILTER_RE] is a string or an object used as it is
    (a compiled pattern). *)
Record settings := {
  SPEEDTRACER_CACHE_PREFIX : option string;
  SPEEDTRACER_DEBUG : option bool;
  SPEEDTRACER_TRACE_DJANGO : option bool;
  SPEEDTRACER_API_URL : option string;
  SPEEDTRACER_TRACE_TTL : option Z;
  SPEEDTRACER_FILE_FILTER_RE : option (string + regex);
  INSTALLED_APPS : list string
}.

Definition CACHE_PREFIX (cfg : settings) : string :=
  default "speedtracer-%s" (SPEEDTRACER_CACHE_PREFIX cfg).
Definition DEBUG (cfg : settings) : bool := default false (SPEEDTRACER_DEBUG cfg).
Definition TRACE_DJANGO (cfg : settings) : bool := default false (SPEEDTRACER_TRACE_DJANGO cfg).
Definition TRACE_URL (cfg : settings) : string :=
  default "/__speedtracer__/" (SPEEDTRACER_API_URL cfg).

(** [_build_range] *)
Definition _build_range (start_time end_time : float) : range :=
  Range start_time end_time (float_sub end_time start_time).

(** ['.'.join(filter(None, (module_name, class_name, co_name)))] *)
Definition make_label (module_name class_name name : string) : string :=
  String.concat "." (List.filter nonempty [module_name; class_name; name]).

(** The [operation] entry of [new_record]. *)
Definition operation_of (fr : frame) : operation :=
  let module_name := default "" (f_module fr) in
  let class_name := default "" (f_self_class fr) in
  {| location := Some {| className := co_filename fr;
                         methodName := co_name fr;
                         lineNumber := f_lineno fr |};
     type := METHOD;
     label := make_label module_name class_name (co_name fr) |}.

(** [l.pop()] on a non-empty list: the rest and the last element. *)
Fixpoint pop {A} (l : list A) : option (list A * A) :=
  match l with
  | [] => None
  | x :: l' =>
      match pop l' with
      | None => Some ([], x)
      | Some (rest, y) => Some (x :: rest, y)
      end
  end.

Definition add_child (parent child : span) : span :=
  {| span_id := span_id parent;
     span_operation := span_operation parent;
     children := children parent ++ [child];
     span_range := span_range parent |}.

Definition set_range (s : span) (r : range) : span :=
  {| span_id := span_id s;
     span_operation := span_operation s;
     children := children s;
     span_range := r |}.

(** What a trace function returns: [None] or [self.trace_callback]. *)
Inductive tracefunc := TraceCallback.

(** [event in ('call', 'return')] *)
Definition is_call_or_return (ev : event) : bool :=
  match ev with EvCall | EvReturn => true | _ => false end.

(** [json.dumps] *)
Class Json := { json_dumps : payload -> string }.

Section Recorder.
Context {J : Json}.
Variable cfg : settings.

(** [SpeedTracerMiddleware.trace_callback] *)
Definition trace_callback (fr : frame) (ev : event) : M state (option tracefunc) :=
  if negb (is_call_or_return ev) then ret None
  else
    do self <- gets fst;
    if negb (re_match (file_filter self) (co_filename fr)) then ret None  (* No trace *)
    else
      (if DEBUG cfg
       then print (DebugLine ev (co_name fr) (co_filename fr) (f_lineno fr))
       else ret tt);;
      match ev with
      | EvCall =>
          do start_time <- time_time;
          do ident <- id_fresh;
          let new_record :=
            {| span_id := ident;
               span_operation := operation_of fr;
               children := [];
               span_range := StartOnly start_time |} in
          modify (fun s => set_call_stack (call_stack s.1 ++ [new_record]) s);;
          ret (Some TraceCallback)
      | EvReturn =>
          do end_time <- time_time;
          do stack <- gets (fun s => call_stack s.1);
          match pop stack with
          | None =>
              print_rshift_stderr "Return without stack?";;
              ret None
          | Some (rest, current_frame) =>
              modify (set_call_stack rest);;
              match span_range current_frame with
              | Range _ _ _ => raise KeyError      (* no key "start_time" *)
              | StartOnly start_time =>
                  let current_frame :=
                    set_range current_frame (_build_range start_time end_time) in
                  match pop rest with
                  | None =>
                      modify (fun s => set_traces (traces s.1 ++ [current_frame]) s);;
                      ret None
                  | Some (below, top) =>
                      modify (set_call_stack (below ++ [add_child top current_frame]));;
                      ret None
                  end
              end
          end
      | _ => ret None
      end.

(** The events of a run, delivered one after the other; an exception
    leaving the trace function ends the run. *)
Fixpoint feed (evs : list (event * frame)) : M state unit :=
  match evs with
  | [] => ret tt
  | (ev, fr) :: rest => trace_callback fr ev;; feed rest
  end.

(** ** The request hooks *)

Record request := {
  path : string;
  method : string;
  _speedtracer_start_time : option float   (* [None]: the attribute is not set *)
}.

(** A Django [HttpResponse]: headers are kept under their lower-cased
    name, with the name as given and the value. *)
Record response := {
  status_code : Z;
  content : string;
  headers : gmap string (string * string)
}.

(** [HttpResponse(content, mimetype=m)] *)
Definition HttpResponse (body mimetype : string) : response :=
  {| status_code := 200;
     content := body;
     headers := {[ "content-type" := ("Content-Type", mimetype) ]} |}.

(** [response[name] = value] *)
Definition set_header (r : response) (name value : string) : response :=
  {| status_code := status_code r;
     content := content r;
     headers := <[ str_lower name := (name, value) ]> (headers r) |}.

(** Modelled from the spec: [django.core.cache.cache] is a library outside
    the repository.  Following section 4.4 (the store's contract), the
    cache is a map from keys to values with a timeout; [cache.get(key,
    default)] reads the clock and returns [default] when the key is absent
    or its entry has expired. *)
Definition cache_get (key : string) (dflt : payload) : M state payload :=
  do now <- time_time;
  do c <- gets (fun s => cache s.2);
  match c !! key with
  | Some (v, written, ttl) =>
      if expired written ttl now then ret dflt else ret (Data v)
  | None => ret dflt
  end.

(** Modelled from the spec: [cache.set(key, value, timeout)] of the same
    library; the entry replaces any earlier one and records when it was
    written. *)
Definition cache_set (key : string) (value : trace) (timeout : Z) : M state unit :=
  do now <- time_time;
  modify (on_world (fun w => set_cache (<[ key := (value, now, timeout) ]> (cache w)) w)).

(** [SpeedTracerMiddleware.process_request]: the request with its new
    attribute, and the value returned ([None] or a response). *)
Definition process_request (req : request) : M state (request * option response) :=
  if negb (startswith (path req) (TRACE_URL cfg)) then
    do now <- time_time;
    let req := {| path := path req; method := method req;
                  _speedtracer_start_time := Some now |} in
    sys_settrace true;;
    ret (req, None)
  else
    do trace_id <- lift (pct_format (CACHE_PREFIX cfg)
                           (str_drop (String.length (TRACE_URL cfg)) (path req)));
    do data <- cache_get trace_id EmptyDict;
    ret (req, Some (HttpResponse (json_dumps data) "application/json; charset=UTF-8")).

(** The dict [data['trace']] of [process_response]. *)
Definition build_trace (req : request) (ident : string) (now start_time end_time : float)
    (recorded_traces : list span) : trace :=
  {| trace_id := ident;
     application := "Django SpeedTracer";
     date := now;
     trace_range := _build_range start_time end_time;
     frameStack :=
       {| span_id := 0;
          span_range := _build_range start_time end_time;
          span_operation := {| location := None;
                               type := HTTP;
                               label := method req +:+ " " +:+ path req |};
          children := recorded_traces |} |}.

(** [SpeedTracerMiddleware.process_response] *)
Definition process_response (req : request) (resp : response) : M state response :=
  sys_settrace false;;
  match _speedtracer_start_time req with
  | None => ret resp
  | Some start_time =>
      do end_time <- time_time;
      do ident <- uuid_uuid4;
      do now <- time_time;
      do recorded_traces <- gets (fun s => traces s.1);
      let data := build_trace req ident now start_time end_time recorded_traces in
      do key <- lift (pct_format (CACHE_PREFIX cfg) ident);
      cache_set key data (default 3600%Z (SPEEDTRACER_TRACE_TTL cfg));;
      ret (set_header resp "X-TraceUrl" (TRACE_URL cfg +:+ ident))
  end.

(** ** Construction *)

(** A module of [sys.modules]; [None]: it has no [__path__] (a plain
    module, or the [None] placeholder Python 2 keeps for relative
    imports). *)
Record pymodule := { __path__ : option (list string) }.

(** The inner loop of [__init__] over the keys of [sys.modules];
    [app_dirs.add( *path )] takes exactly one argument. *)
Fixpoint scan_modules (sys_modules : gmap string pymodule) (app : string)
    (keys : list string) : M (gset string) unit :=
  match keys with
  | [] => ret tt
  | k :: keys' =>
      (if startswith k app then
         match sys_modules !! app with
         | None => raise KeyError
         | Some m =>
             match __path__ m with
             | None => raise AttributeError
             | Some [d] => modify (fun app_dirs => {[ d ]} ∪ app_dirs)
             | Some _ => raise TypeError
             end
         end
       else ret tt);;
      scan_modules sys_modules app keys'
  end.

(** The loop over [settings.INSTALLED_APPS]. *)
Fixpoint collect_app_dirs (sys_modules : gmap string pymodule) (apps : list string)
    : M (gset string) unit :=
  match apps with
  | [] => ret tt
  | app :: apps' =>
      try_except
        (if startswith app "django." && negb (TRACE_DJANGO cfg) then ret tt
         else scan_modules sys_modules app (map_to_list sys_modules).*1)
        KeyError
        (print_rshift_stderr ("Can't get path for app: " +:+ app));;
      collect_app_dirs sys_modules apps'
  end.

(** [SpeedTracerMiddleware.__init__] (the deprecation warning apart). *)
Definition __init__ (sys_modules : gmap string pymodule) : result middleware :=
  let fresh r := {| file_filter := r; traces := []; call_stack := [] |} in
  match SPEEDTRACER_FILE_FILTER_RE cfg with
  | Some (inl pattern) =>
      match re_compile pattern with
      | Some r => Ok (fresh r)
      | None => Raise ReError
      end
  | None =>
      fst ((collect_app_dirs sys_modules (INSTALLED_APPS cfg);;
            do app_dirs <- gets (fun d => d);
            let app_dir_re :=
              "(" +:+ String.concat "|" (map re_escape (elements app_dirs)) +:+ ")" in
            print_rshift_stderr
              ("Autogenerated settings.SPEEDTRACER_FILE_FILTER_RE: " +:+ app_dir_re);;
            match re_compile app_dir_re with
            | Some r => ret (fresh r)
            | None => raise ReError
            end) (∅ : gset string))
  | Some (inr r) => Ok (fresh r)
  end.

End Recorder.

(** ** Runs of the traced program *)

(** One activation and the activations it makes, in call order. *)
Inductive call := Call (fr : frame) (inner : list call).

(** The enter and exit events of an activation.  The interpreter reports
    the return of a frame only when the trace function returned a local
    trace function for its call; [local fr] says whether it did. *)
Fixpoint events_of (local : frame -> bool) (c : call) : list (event * frame) :=
  match c with
  | Call fr inner =>
      (EvCall, fr) :: flat_map (events_of local) inner
        ++ (if local fr then [(EvReturn, fr)] else [])
  end.

(** The frames entered, in the order of their [call] events. *)
Definition calls_in (evs : list (event * frame)) : list frame :=
  flat_map (fun e => match e.1 with EvCall => [e.2] | _ => [] end) evs.

(** A tree of operations: what a recorded tree says once identities and
    times are forgotten. *)
Inductive optree := Node (op : operation) (subs : list optree).

Fixpoint shape (s : span) : optree :=
  Node (span_operation s) (map shape (children s)).

(** Depth-first walk of a recorded tree. *)
Fixpoint flatten (s : span) : list span :=
  s :: flat_map flatten (children s).

(** What a run is expected to leave: the matching activations, each with
    the matching activations nearest below it; an activation that does
    not match is replaced by what its inner calls leave. *)
Fixpoint recorded (matching : frame -> bool) (c : call) : list optree :=
  match c with
  | Call fr inner =>
      let subs := flat_map (recorded matching) inner in
      if matching fr then [Node (operation_of fr) subs] else subs
  end.

(** The tree of a run in which every activation is recorded. *)
Fixpoint call_tree (c : call) : optree :=
  match c with
  | Call fr inner => Node (operation_of fr) (map call_tree inner)
  end.

Fixpoint all_frames (p : frame -> bool) (c : call) : bool :=
  match c with
  | Call fr inner => p fr && forallb (all_frames p) inner
  end.

Definition matches (mw : middleware) (fr : frame) : bool :=
  re_match (file_filter mw) (co_filename fr).

(** Completed records go under the record on top of the stack, or to
    [traces] when the stack is empty. *)
Definition attach (mw : middleware) (done : list span) : middleware :=
  match pop (call_stack mw) with
  | None =>
      {| file_filter := file_filter mw;
         traces := traces mw ++ done;
         call_stack := [] |}
  | Some (below, top) =>
      {| file_filter := file_filter mw;
         traces := traces mw;
         call_stack := below ++ [{| span_id := span_id top;
                                    span_operation := span_operation top;
                                    children := children top ++ done;
                                    span_range := span_range top |}] |}
  end.

(** Running the events [evs] in any state completes and attaches, below
    the current top of the stack, records of the shape [expected]. *)
Definition runs_to (cfg : settings) (local : frame -> bool)
    (evs : list (event * frame)) (expected : middleware -> list optree) : Prop :=
  forall mw w,
    (forall fr, matches mw fr = true -> local fr = true) ->
    exists done w',
      feed cfg evs (mw, w) = (Ok tt, (attach mw done, w'))
      /\ map shape done = expected mw.

(** Depth-first walk of a tree of operations. *)
Fixpoint preorder (t : optree) : list operation :=
  match t with
  | Node op subs => op :: flat_map preorder subs
  end.

(** The records that were completed: everything under [traces] and
    everything below a record of the stack. *)
Definition completed (mw : middleware) : list span :=
  flat_map flatten (traces mw)
    ++ flat_map (fun p => flat_map flatten (children p)) (call_stack mw).

(** The range of a completed record. *)
Definition closed (s : span) : Prop :=
  exists a b d,
    span_range s = Range a b d /\ float_leb a b = true /\ d = float_sub b a.

(** Every value of the clock is at least every earlier one. *)
Definition monotone_clock : Prop :=
  forall i j, (i <= j)%nat -> float_leb (clock i) (clock j) = true.

(** What the recorder maintains: completed records are closed, and a
    record of the stack is open since some earlier reading of the clock. *)
Definition timed (s : state) : Prop :=
  Forall closed (completed s.1)
  /\ Forall (fun p => exists i, (i < reads s.2)%nat /\ span_range p = StartOnly (clock i))
            (call_stack s.1).

(** No live entry under [key] when the clock is read next. *)
Definition unavailable (w : world) (key : string) : Prop :=
  match cache w !! key with
  | None => True
  | Some (_, written, ttl) => expired written ttl (clock (reads w)) = true
  end.

(** The world after the [DEBUG] line of the callback. *)
Definition debug_world (cfg : settings) (ev : event) (fr : frame) (w : world) : world :=
  if DEBUG cfg
  then write_stdout (DebugLine ev (co_name fr) (co_filename fr) (f_lineno fr)) w
  else w.

(** [call_stack.append(r)] *)
Definition push (mw : middleware) (r : span) : middleware :=
  {| file_filter := file_filter mw;
     traces := traces mw;
     call_stack := call_stack mw ++ [r] |}.

(** [new_record] for a frame entered in world [w]. *)
Definition opened (fr : frame) (w : world) : span :=
  {| span_id := address (allocs w);
     span_operation := operation_of fr;
     children := [];
     span_range := StartOnly (clock (reads w)) |}.

End WithPlatform.

(** ** A concrete platform and a concrete run

    Integer timestamps, patterns that are path prefixes: the instance the
    statements below are evaluated at. *)

Definition demo : Platform :=
  {| float := Z;
     float_sub := Z.sub;
     float_leb := Z.leb;
     clock := fun n => (1000 + Z.of_nat n)%Z;
     uuid4 := fun n => String.concat "" (repeat "u" (S n));
     address := fun n => (4096 + 8 * Z.of_nat n)%Z;
     regex := string;
     re_compile := fun s => Some s;
     re_match := fun r s => String.prefix r s;
     re_escape := fun s => s;
     expired := fun written ttl now => (written + ttl <=? now)%Z |}.

Definition demo_json : @Json demo :=
  {| json_dumps := fun p =>
       match p with
       | EmptyDict => "{}"
       | Data t => "{trace: " +:+ @trace_id demo t +:+ "}"
       end |}.

Definition demo_cfg : @settings demo :=
  {| SPEEDTRACER_CACHE_PREFIX := None;
     SPEEDTRACER_DEBUG := None;
     SPEEDTRACER_TRACE_DJANGO := None;
     SPEEDTRACER_API_URL := None;
     SPEEDTRACER_TRACE_TTL := None;
     SPEEDTRACER_FILE_FILTER_RE := Some (inl "/srv/app/");
     INSTALLED_APPS := ["blog"] |}.

(** The same settings with no file filter configured. *)
Definition demo_cfg_auto : @settings demo :=
  {| SPEEDTRACER_CACHE_PREFIX := None;
     SPEEDTRACER_DEBUG := None;
     SPEEDTRACER_TRACE_DJANGO := None;
     SPEEDTRACER_API_URL := None;
     SPEEDTRACER_TRACE_TTL := None;
     SPEEDTRACER_FILE_FILTER_RE := None;
     INSTALLED_APPS := ["blog"] |}.

Definition demo_mw : @middleware demo :=
  {| file_filter := "/srv/app/" : @regex demo; traces := []; call_stack := [] |}.

Definition demo_world : @world demo :=
  {| reads := 0; allocs := 0; uuids := 0; cache := ∅;
     stdout := []; stderr := []; tracing := false |}.

Definition page_handler : frame :=
  {| co_filename := "/srv/app/views.py"; co_name := "page_handler"; f_lineno := 12;
     f_module := Some "views"; f_self_class := None |}.

Definition page_load : frame :=
  {| co_filename := "/srv/app/models.py"; co_name := "load"; f_lineno := 40;
     f_module := Some "models"; f_self_class := Some "Page" |}.

Definition get_response : frame :=
  {| co_filename := "/usr/lib/django/core/handlers/base.py"; co_name := "get_response";
     f_lineno := 66; f_module := Some "django.core.handlers.base";
     f_self_class := Some "BaseHandler" |}.

(** [page_handler] calls [load]. *)
Definition demo_calls : list call := [Call page_handler [Call page_load []]].

(** A framework frame between the two. *)
Definition demo_calls_mixed : list call :=
  [Call page_handler [Call get_response [Call page_load []]]].

Definition demo_request (p : string) : @request demo :=
  {| path := p; method := "GET"; _speedtracer_start_time := None |}.

Definition demo_response : response :=
  {| status_code := 200; content := "<html/>"; headers := ∅ |}.

(** Three states of [sys.modules]: only a module whose name starts with
    the application's name; the application as a plain module; the
    application as a package. *)
Definition modules_prefix_only : gmap string pymodule :=
  {[ "blogroll" := {| __path__ := Some ["/srv/blogroll"] |} ]}.

Definition modules_plain : gmap string pymodule :=
  {[ "blog" := {| __path__ := None |} ]}.

Definition modules_package : gmap string pymodule :=
  {[ "blog" := {| __path__ := Some ["/srv/blog"] |} ]}.

(** One request handled from start to end: the before-handler hook, the
    events of the handler, the after-handler hook. *)
Definition handle (p : string) (evs : list (event * frame)) : M (@state demo) response :=
  do r <- process_request (J := demo_json) demo_cfg (demo_request p);
  feed demo_cfg evs;;
  process_response demo_cfg r.1 demo_response.

(** The state of the middleware after a first request during which
    [page_handler] called [load]. *)
Definition after_first_request : @state demo :=
  (handle "/app/page" (flat_map (events_of (fun _ => true)) demo_calls)
     (demo_mw, demo_world)).2.

(** The state after a first request whose response hook ran while
    [page_handler] had not returned yet. *)
Definition after_interrupted_request : @state demo :=
  (handle "/app/page" [(EvCall, page_handler)] (demo_mw, demo_world)).2.

Definition traced_request : @request demo :=
  {| path := "/app/page"; method := "GET"; _speedtracer_start_time := Some (1000%Z : @float demo) |}.

(** ** The callback as a transition system *)

Section Transitions.
Context {P : Platform}.

(** The events the callback acts on: [call] and [return] events of frames
    on a path the pattern [ff] matches. *)
Definition relevant (ff : regex) (e : event * frame) : bool :=
  is_call_or_return e.1 && re_match ff (co_filename e.2).

Definition recorder (ff : regex) (tr st : list span) : middleware :=
  {| file_filter := ff; traces := tr; call_stack := st |}.

(** The five ways through [trace_callback]: the early returns of lines 83
    and 86, the [call] branch, and the [return] branch with an empty
    stack, an open record on top, or a record on top that has no
    [start_time]. *)
Inductive Step (cfg : settings) (fr : frame) (ev : event)
  : state -> result (option tracefunc) * state -> Prop :=
| Step_ignored ff tr st w :
    relevant ff (ev, fr) = false ->
    Step cfg fr ev (recorder ff tr st, w) (Ok None, (recorder ff tr st, w))
| Step_call ff tr st w :
    re_match ff (co_filename fr) = true ->
    ev = EvCall ->
    Step cfg fr ev (recorder ff tr st, w)
      (Ok (Some TraceCallback),
       (recorder ff tr (st ++ [opened fr w]),
        alloc (tick (debug_world cfg EvCall fr w))))
| Step_return ff tr below top t w :
    re_match ff (co_filename fr) = true ->
    ev = EvReturn ->
    span_range top = StartOnly t ->
    Step cfg fr ev (recorder ff tr (below ++ [top]), w)
      (Ok None,
       (attach (recorder ff tr below)
          [set_range top (_build_range t (clock (reads w)))],
        tick (debug_world cfg EvReturn fr w)))
| Step_return_empty ff tr w :
    re_match ff (co_filename fr) = true ->
    ev = EvReturn ->
    Step cfg fr ev (recorder ff tr [], w)
      (Raise TypeError, (recorder ff tr [], tick (debug_world cfg EvReturn fr w)))
| Step_return_closed ff tr below top a b d w :
    re_match ff (co_filename fr) = true ->
    ev = EvReturn ->
    span_range top = Range a b d ->
    Step cfg fr ev (recorder ff tr (below ++ [top]), w)
      (Raise KeyError, (recorder ff tr below, tick (debug_world cfg EvReturn fr w))).

(** Whether a run of events finds an open record for each of its relevant
    returns, starting with [depth] records on the stack. *)
Fixpoint balanced (ff : regex) (depth : nat) (evs : list (event * frame)) : bool :=
  match evs with
  | [] => true
  | (ev, fr) :: rest =>
      if relevant ff (ev, fr) then
        match ev, depth with
        | EvCall, _ => balanced ff (S depth) rest
        | _, O => false
        | _, S depth' => balanced ff depth' rest
        end
      else balanced ff depth rest
  end.

(** Every record of the stack still has its [start_time]. *)
Definition all_open (st : list span) : Prop :=
  Forall (fun p => exists t, span_range p = StartOnly t) st.

(** All the records the recorder holds, at any depth. *)
Definition records (mw : middleware) : list span :=
  flat_map flatten (traces mw ++ call_stack mw).

(** The [call] events the callback records. *)
Definition recorded_calls (ff : regex) (evs : list (event * frame)) : list (event * frame) :=
  List.filter (fun e => match e.1 with EvCall => re_match ff (co_filename e.2) | _ => false end) evs.

(** The lines that [DEBUG] prints for a run. *)
Definition debug_lines (cfg : settings) (ff : regex) (evs : list (event * frame))
    : list line_out :=
  if DEBUG cfg
  then map (fun e => DebugLine e.1 (co_name e.2) (co_filename e.2) (f_lineno e.2))
           (List.filter (relevant ff) evs)
  else [].

End Transitions.

(** ** Nesting of the recorded times *)

Section Nesting.
Context {P : Platform}.

(** [within lo hi s]: the record [s] was opened at reading number [i] of
    the clock and closed at reading number [j], with [lo <= i <= j < hi],
    and its children follow one another between the two.
    [seq_within lo hi l]: the records of [l] follow one another between
    readings [lo] and [hi]. *)
Inductive within : nat -> nat -> span -> Prop :=
| within_intro lo hi s i j :
    (lo <= i)%nat -> (i <= j)%nat -> (j < hi)%nat ->
    span_range s = _build_range (clock i) (clock j) ->
    seq_within (S i) j (children s) ->
    within lo hi s
with seq_within : nat -> nat -> list span -> Prop :=
| seq_nil lo hi : (lo <= hi)%nat -> seq_within lo hi []
| seq_cons lo mid hi c l :
    within lo mid c -> seq_within mid hi l -> seq_within lo hi (c :: l).

Scheme within_ind2 := Minimality for within Sort Prop
  with seq_within_ind2 := Minimality for seq_within Sort Prop.

Combined Scheme within_seq_ind from within_ind2, seq_within_ind2.

(** The open records of the stack, bottom first, between readings [lo]
    and [n]: each was opened after the children of the one below it. *)
Fixpoint stack_within (lo n : nat) (st : list span) : Prop :=
  match st with
  | [] => (lo <= n)%nat
  | p :: rest =>
      exists i mid,
        (lo <= i)%nat /\ (i < mid)%nat
        /\ span_range p = StartOnly (clock i)
        /\ seq_within (S i) mid (children p)
        /\ stack_within mid n rest
  end.

(** What the recorder maintains: the completed top-level records follow
    one another, and the open records come after them. *)
Definition nested (s : state) : Prop :=
  exists mid,
    seq_within 0 mid (traces s.1) /\ stack_within mid (reads s.2) (call_stack s.1).

(** The range of [c] lies inside the range of [p]. *)
Definition range_encloses (p c : span) : Prop :=
  exists a b d a' b' d',
    span_range p = Range a b d /\ span_range c = Range a' b' d'
    /\ float_leb a a' = true /\ float_leb b' b = true.

(** [c1] ended before [c2] started. *)
Definition range_precedes (c1 c2 : span) : Prop :=
  exists a b d a' b' d',
    span_range c1 = Range a b d /\ span_range c2 = Range a' b' d'
    /\ float_leb b a' = true.

(** Any record of the list ended before any later one started. *)
Definition in_order (l : list span) : Prop :=
  forall l1 c1 l2 c2 l3, l = l1 ++ c1 :: l2 ++ c2 :: l3 -> range_precedes c1 c2.

Definition well_nested (s : span) : Prop :=
  (forall c, In c (children s) -> range_encloses s c) /\ in_order (children s).

End Nesting.

(** The settings with [SPEEDTRACER_DEBUG] on. *)
Definition demo_cfg_debug : @settings demo :=
  {| SPEEDTRACER_CACHE_PREFIX := None;
     SPEEDTRACER_DEBUG := Some true;
     SPEEDTRACER_TRACE_DJANGO := None;
     SPEEDTRACER_API_URL := None;
     SPEEDTRACER_TRACE_TTL := None;
     SPEEDTRACER_FILE_FILTER_RE := Some (inl "/srv/app/");
     INSTALLED_APPS := ["blog"] |}.

(** The events of [page_handler] calling [load], with a line event. *)
Definition demo_run : list (event * frame) :=
  [(EvCall, page_handler); (EvLine, page_handler); (EvCall, page_load);
   (EvReturn, page_load); (EvReturn, page_handler)].

(** A record left open by an earlier request. *)
Definition stale_mw : @middleware demo :=
  {| file_filter := "/srv/app/" : @regex demo;
     traces := [];
     call_stack := [opened page_handler demo_world] |}.

(** The events of a run with a line event, a framework frame and a return
    that finds no open record. *)
Definition demo_events : list (event * frame) :=
  [(EvCall, page_handler); (EvLine, page_handler); (EvCall, get_response);
   (EvReturn, get_response); (EvReturn, page_handler); (EvReturn, page_load)].

(** * Properties *)

Section Properties.
Context {P : Platform} {J : Json}.
Variable cfg : settings.

(** ** Lists used as stacks *)

Lemma pop_snoc {A} (l : list A) (x : A) : pop (l ++ [x]) = Some (l, x).
Proof.
  induction l as [|y l IH]; simpl; [reflexivity|].
  now rewrite IH.
Qed.

Lemma pop_None {A} (l : list A) : pop l = None -> l = [].
Proof.
  destruct l as [|x l]; [reflexivity|].
  simpl. destruct (pop l) as [[r y]|]; discriminate.
Qed.

Lemma pop_Some {A} (l r : list A) (x : A) : pop l = Some (r, x) -> l = r ++ [x].
Proof.
  revert r x. induction l as [|y l IH]; intros r x; simpl; [discriminate|].
  destruct (pop l) as [[r' z]|] eqn:E.
  - intros [= <- <-]. simpl. f_equal. now apply IH.
  - intros [= <- <-]. apply pop_None in E. now subst.
Qed.

(** ** Single steps of the recorder *)

Lemma step_ignored fr ev mw w :
  is_call_or_return ev = false \/ matches mw fr = false ->
  trace_callback cfg fr ev (mw, w) = (Ok None, (mw, w)).
Proof.
  unfold trace_callback, matches. intros [H|H].
  - now rewrite H.
  - destruct (is_call_or_return ev); [|reflexivity].
    unfold bind, gets, ret. simpl. now rewrite H.
Qed.

Lemma step_call fr mw w :
  matches mw fr = true ->
  trace_callback cfg fr EvCall (mw, w)
  = (Ok (Some TraceCallback),
     (push mw (opened fr w), alloc (tick (debug_world cfg EvCall fr w)))).
Proof.
  unfold trace_callback, matches, debug_world. intros H.
  unfold bind, gets, ret, print, modify, time_time, id_fresh. simpl. rewrite H. simpl.
  destruct (DEBUG cfg); reflexivity.
Qed.

Lemma step_return fr ff tr below top t w :
  re_match ff (co_filename fr) = true ->
  span_range top = StartOnly t ->
  trace_callback cfg fr EvReturn
    ({| file_filter := ff; traces := tr; call_stack := below ++ [top] |}, w)
  = (Ok None,
     (attach {| file_filter := ff; traces := tr; call_stack := below |}
        [set_range top (_build_range t (clock (reads w)))],
      tick (debug_world cfg EvReturn fr w))).
Proof.
  unfold trace_callback, debug_world. intros H Ht.
  unfold bind, gets, ret, print, modify, time_time. simpl. rewrite H. simpl.
  destruct (DEBUG cfg); simpl; rewrite pop_snoc, Ht; unfold attach; simpl;
    (destruct (pop below) as [[b t']|] eqn:E;
     [reflexivity | apply pop_None in E; subst below; reflexivity]).
Qed.

Lemma step_return_empty fr ff tr w :
  re_match ff (co_filename fr) = true ->
  trace_callback cfg fr EvReturn
    ({| file_filter := ff; traces := tr; call_stack := [] |}, w)
  = (Raise TypeError,
     ({| file_filter := ff; traces := tr; call_stack := [] |},
      tick (debug_world cfg EvReturn fr w))).
Proof.
  unfold trace_callback, debug_world. intros H.
  unfold bind, gets, ret, print, modify, time_time. simpl. rewrite H. simpl.
  destruct (DEBUG cfg); reflexivity.
Qed.

(** ** Runs *)

Lemma call_forest_ind (Q : call -> Prop) :
  (forall fr inner, Forall Q inner -> Q (Call fr inner)) ->
  forall c, Q c.
Proof.
  intros step. fix IH 1. intros [fr inner]. apply step.
  induction inner as [|c inner IHinner]; constructor; [apply IH | exact IHinner].
Qed.

Lemma feed_app evs1 evs2 s :
  feed cfg (evs1 ++ evs2) s
  = match feed cfg evs1 s with
    | (Ok _, s') => feed cfg evs2 s'
    | (Raise e, s') => (Raise e, s')
    end.
Proof.
  revert s. induction evs1 as [|[ev fr] evs1 IH]; intros s; simpl; [reflexivity|].
  unfold bind. destruct (trace_callback cfg fr ev s) as [[a|e] s1]; [apply IH | reflexivity].
Qed.

Lemma attach_nil mw : attach mw [] = mw.
Proof.
  destruct mw as [ff tr st]. unfold attach. simpl.
  destruct (pop st) as [[below top]|] eqn:E.
  - apply pop_Some in E. subst st. destruct top. simpl. now rewrite app_nil_r.
  - apply pop_None in E. subst st. now rewrite app_nil_r.
Qed.

Lemma attach_app mw a b : attach (attach mw a) b = attach mw (a ++ b).
Proof.
  destruct mw as [ff tr st]. unfold attach at 2 3. simpl.
  destruct (pop st) as [[below top]|] eqn:E; unfold attach; simpl.
  - rewrite pop_snoc. simpl. now rewrite app_assoc.
  - now rewrite app_assoc.
Qed.

Lemma attach_push mw r done :
  attach (push mw r) done
  = push mw {| span_id := span_id r; span_operation := span_operation r;
               children := children r ++ done; span_range := span_range r |}.
Proof. unfold attach, push. simpl. now rewrite pop_snoc. Qed.

Lemma file_filter_attach mw done : file_filter (attach mw done) = file_filter mw.
Proof. unfold attach. now destruct (pop (call_stack mw)) as [[b t]|]. Qed.

Section Forest.
Variable local : frame -> bool.

Lemma runs_to_forest cs :
  Forall (fun c => runs_to cfg local (events_of local c) (fun mw => recorded (matches mw) c)) cs ->
  runs_to cfg local (flat_map (events_of local) cs)
          (fun mw => flat_map (recorded (matches mw)) cs).
Proof.
  induction 1 as [|c cs Hc _ IH]; intros mw w Hlocal; simpl.
  - exists [], w. now rewrite attach_nil.
  - destruct (Hc mw w Hlocal) as (d1 & w1 & E1 & S1).
    destruct (IH (attach mw d1) w1) as (d2 & w2 & E2 & S2).
    { intros fr. unfold matches. rewrite file_filter_attach. apply Hlocal. }
    exists (d1 ++ d2), w2. split.
    + rewrite feed_app, E1, E2. now rewrite attach_app.
    + rewrite map_app, S1, S2. unfold matches. now rewrite file_filter_attach.
Qed.

Lemma runs_to_call c :
  runs_to cfg local (events_of local c) (fun mw => recorded (matches mw) c).
Proof.
  induction c as [fr inner IH] using call_forest_ind.
  apply runs_to_forest in IH.
  intros mw w Hlocal. simpl.
  destruct (matches mw fr) eqn:Hm.
  - rewrite (Hlocal fr Hm).
    unfold bind at 1. rewrite (step_call fr mw w Hm).
    destruct (IH (push mw (opened fr w)) (alloc (tick (debug_world cfg EvCall fr w))))
      as (d & w1 & E & S).
    { intros fr'. apply Hlocal. }
    rewrite feed_app, E, attach_push. simpl.
    unfold bind. destruct mw as [ff tr st]. unfold push. simpl.
    erewrite step_return; [|exact Hm|reflexivity].
    eexists _, _. split; [reflexivity|].
    simpl. now rewrite S.
  - unfold bind at 1. rewrite (step_ignored fr EvCall mw w (or_intror Hm)).
    destruct (IH mw w Hlocal) as (d & w1 & E & S).
    rewrite feed_app, E.
    exists d, w1. split; [|exact S].
    destruct (local fr); [|reflexivity].
    simpl. unfold bind.
    rewrite step_ignored; [reflexivity|].
    right. unfold matches. now rewrite file_filter_attach.
Qed.

End Forest.

Lemma recorded_all (p : frame -> bool) c :
  all_frames p c = true -> recorded p c = [call_tree c].
Proof.
  induction c as [fr inner IH] using call_forest_ind. simpl.
  intros [Hfr Hin]%andb_prop. rewrite Hfr. do 2 f_equal.
  induction IH as [|c inner Hc _ IHin]; simpl in *; [reflexivity|].
  apply andb_prop in Hin as [Hc' Hin].
  now rewrite (Hc Hc'), (IHin Hin).
Qed.

Lemma recorded_all_forest (p : frame -> bool) cs :
  forallb (all_frames p) cs = true ->
  flat_map (recorded p) cs = map call_tree cs.
Proof.
  induction cs as [|c cs IH]; simpl; [reflexivity|].
  intros [Hc Hcs]%andb_prop. now rewrite (recorded_all p c Hc), (IH Hcs).
Qed.

Lemma flatten_shape s : map span_operation (flatten s) = preorder (shape s).
Proof.
  revert s. fix IH 1. intros [i op ch r]. simpl. f_equal.
  induction ch as [|c ch IHch]; simpl; [reflexivity|].
  now rewrite map_app, IH, IHch.
Qed.

Lemma flatten_shape_forest l :
  map span_operation (flat_map flatten l) = flat_map preorder (map shape l).
Proof.
  induction l as [|s l IH]; simpl; [reflexivity|].
  now rewrite map_app, flatten_shape, IH.
Qed.

Lemma calls_in_app a b : calls_in (a ++ b) = calls_in a ++ calls_in b.
Proof. unfold calls_in. apply flat_map_app. Qed.

Lemma preorder_call_tree local c :
  preorder (call_tree c) = map operation_of (calls_in (events_of local c)).
Proof.
  induction c as [fr inner IH] using call_forest_ind. simpl.
  change (calls_in ((EvCall, fr) :: ?l)) with (fr :: calls_in l).
  simpl. f_equal. rewrite calls_in_app.
  replace (calls_in (if local fr then [(EvReturn, fr)] else [])) with (@nil frame)
    by now destruct (local fr).
  rewrite app_nil_r.
  induction IH as [|c inner Hc _ IHin]; simpl; [reflexivity|].
  now rewrite calls_in_app, map_app, Hc, IHin.
Qed.

Lemma preorder_call_forest local cs :
  flat_map preorder (map call_tree cs)
  = map operation_of (calls_in (flat_map (events_of local) cs)).
Proof.
  induction cs as [|c cs IH]; simpl; [reflexivity|].
  now rewrite calls_in_app, map_app, (preorder_call_tree local), IH.
Qed.

(** C2.  Feed a fresh recorder the enter and exit events of any forest of
    nested activations, all of them on paths the filter matches.  The run
    completes with an empty stack; the trees left in [traces] are the call
    forest itself (each record's children are the calls made directly
    within its activation, in call order); and the depth-first walk of
    [traces] lists the operations in the order of the [call] events. *)
Theorem C2_traces_reproduce_call_forest (cs : list call) mw w :
  traces mw = [] ->
  call_stack mw = [] ->
  forallb (all_frames (matches mw)) cs = true ->
  let evs := flat_map (events_of (fun _ => true)) cs in
  exists mw' w',
    feed cfg evs (mw, w) = (Ok tt, (mw', w'))
    /\ call_stack mw' = []
    /\ map shape (traces mw') = map call_tree cs
    /\ map span_operation (flat_map flatten (traces mw'))
       = map operation_of (calls_in evs).
Proof.
  intros Htr Hst Hall evs.
  destruct (runs_to_forest (fun _ => true) cs) with (mw := mw) (w := w)
    as (done & w' & E & S).
  { apply Forall_forall. intros c _. apply runs_to_call. }
  { reflexivity. }
  rewrite (recorded_all_forest _ _ Hall) in S.
  assert (Hmw : attach mw done
                = {| file_filter := file_filter mw; traces := done; call_stack := [] |}).
  { unfold attach. now rewrite Hst, Htr. }
  exists (attach mw done), w'. rewrite Hmw in *. simpl.
  repeat split; try assumption.
  rewrite flatten_shape_forest, S. apply preorder_call_forest.
Qed.

(** C3.  An event on a path the filter does not match leaves the recorder
    as it was (no record is made).  And for any forest of activations,
    matching or not, fed in any state: the run completes and the records
    it leaves are those of the matching activations, each holding the
    matching activations nearest below it; they go under the record on top
    of the stack, or to [traces] when the stack is empty.  [local] says for
    which frames the interpreter reports the return; it has to do so for a
    frame whose call was recorded. *)
Theorem C3_unmatched_frames_are_transparent (local : frame -> bool) (cs : list call) mw w :
  (forall fr, matches mw fr = true -> local fr = true) ->
  (forall fr ev, matches mw fr = false ->
     trace_callback cfg fr ev (mw, w) = (Ok None, (mw, w)))
  /\ exists done w',
       feed cfg (flat_map (events_of local) cs) (mw, w) = (Ok tt, (attach mw done, w'))
       /\ map shape done = flat_map (recorded (matches mw)) cs.
Proof.
  intros Hlocal. split.
  - intros fr ev Hm. apply step_ignored. now right.
  - apply (runs_to_forest local cs); [|exact Hlocal].
    apply Forall_forall. intros c _. apply runs_to_call.
Qed.

(** ** Ranges *)

Lemma reads_debug_world ev fr w : reads (debug_world cfg ev fr w) = reads w.
Proof. unfold debug_world. now destruct (DEBUG cfg). Qed.

Lemma completed_attach (Q : span -> Prop) mw done :
  Forall Q (completed (attach mw done))
  <-> Forall Q (completed mw) /\ Forall Q (flat_map flatten done).
Proof.
  destruct mw as [ff tr st]. unfold attach, completed. simpl.
  destruct (pop st) as [[below top]|] eqn:E.
  - apply pop_Some in E. subst st. simpl.
    rewrite !flat_map_app. simpl. rewrite !flat_map_app, !app_nil_r.
    rewrite !Forall_app. tauto.
  - apply pop_None in E. subst st. simpl.
    rewrite !flat_map_app, !app_nil_r. rewrite !Forall_app. tauto.
Qed.

Lemma stack_attach (R : range -> Prop) mw done :
  Forall (fun p => R (span_range p)) (call_stack (attach mw done))
  <-> Forall (fun p => R (span_range p)) (call_stack mw).
Proof.
  destruct mw as [ff tr st]. unfold attach. simpl.
  destruct (pop st) as [[below top]|] eqn:E.
  - apply pop_Some in E. subst st. simpl.
    rewrite !Forall_app, !Forall_singleton. simpl. tauto.
  - apply pop_None in E. now subst st.
Qed.

(** One event keeps the recorder's ranges in order, whatever the event
    and whether or not the callback raises. *)
Lemma step_timed fr ev s :
  monotone_clock -> timed s -> timed (trace_callback cfg fr ev s).2.
Proof.
  intros Hmono [Hdone Hstack]. destruct s as [mw w].
  destruct (is_call_or_return ev) eqn:Hev;
    [|rewrite step_ignored by (now left); now split].
  destruct (matches mw fr) eqn:Hm;
    [|rewrite step_ignored by (now right); now split].
  destruct ev; try discriminate.
  - (* call *)
    rewrite (step_call fr mw w Hm). unfold timed, push, completed in *. simpl in *.
    rewrite reads_debug_world. split.
    + rewrite flat_map_app. simpl. now rewrite !app_nil_r.
    + apply Forall_app. split.
      * eapply Forall_impl; [exact Hstack|].
        intros p (i & Hi & Hp). exists i. split; [lia | exact Hp].
      * apply Forall_singleton. exists (reads w). simpl. split; [lia | reflexivity].
  - (* return *)
    destruct mw as [ff tr st]. unfold matches in Hm. simpl in Hm.
    destruct (pop st) as [[below top]|] eqn:E.
    + apply pop_Some in E. subst st.
      unfold completed in Hdone. simpl in *.
      rewrite flat_map_app in Hdone. simpl in Hdone. rewrite app_nil_r in Hdone.
      apply Forall_app in Hdone as [Htr Hdone].
      apply Forall_app in Hdone as [Hbelow Htop].
      apply Forall_app in Hstack as [Hsb Hst].
      apply Forall_singleton in Hst as (i & Hi & Hr).
      rewrite (step_return fr ff tr below top (clock i) w Hm Hr).
      unfold timed. simpl. rewrite reads_debug_world. split.
      * apply completed_attach. split.
        -- unfold completed. simpl. apply Forall_app. now split.
        -- simpl. rewrite app_nil_r. constructor; [|exact Htop].
           exists (clock i), (clock (reads w)), (float_sub (clock (reads w)) (clock i)).
           repeat split. apply Hmono. lia.
      * apply (stack_attach
                 (fun r => exists i, (i < S (reads w))%nat /\ r = StartOnly (clock i))).
        simpl. eapply Forall_impl; [exact Hsb|].
        intros p (k & Hk & Hp). exists k. split; [lia | exact Hp].
    + apply pop_None in E. subst st.
      rewrite (step_return_empty fr ff tr w Hm).
      unfold timed. simpl. split; [exact Hdone | constructor].
Qed.

Lemma feed_timed evs s :
  monotone_clock -> timed s -> timed (feed cfg evs s).2.
Proof.
  intros Hmono. revert s. induction evs as [|[ev fr] evs IH]; intros s Hs; simpl.
  - exact Hs.
  - unfold bind. pose proof (step_timed fr ev s Hmono Hs) as Hstep.
    destruct (trace_callback cfg fr ev s) as [[a|e] s1]; simpl in *.
    + now apply IH.
    + exact Hstep.
Qed.

(** C5.  With a clock that never goes back, after any sequence of events
    fed to a fresh recorder (well nested or not, and up to the point where
    the callback raises, if it does), every completed record, at any depth
    under [traces] or below a record still on the stack, has a range with
    [start <= end] and [duration = end - start]. *)
Theorem C5_closed_ranges_are_ordered (evs : list (event * frame)) mw w :
  monotone_clock ->
  traces mw = [] ->
  call_stack mw = [] ->
  Forall (fun s => exists a b d,
            span_range s = Range a b d
            /\ float_leb a b = true
            /\ d = float_sub b a)
         (completed (feed cfg evs (mw, w)).2.1).
Proof.
  intros Hmono Htr Hst.
  apply (feed_timed evs (mw, w) Hmono).
  unfold timed, completed. simpl. rewrite Htr, Hst. split; constructor.
Qed.

(** ** Keys and paths *)

Lemma template_scan_format t pending used arg :
  template_scan t pending used = true ->
  exists r, pct_scan t pending used arg = Ok r.
Proof.
  revert pending used. induction t as [|c t IH]; intros pending used; simpl.
  - destruct pending, used; simpl; try discriminate. now exists "".
  - destruct pending.
    + destruct (Ascii.eqb c "s").
      * destruct used; simpl; [discriminate|]. intros H.
        destruct (IH _ _ H) as [r ->]. eauto.
      * destruct (Ascii.eqb c "%"); [|discriminate]. intros H.
        destruct (IH _ _ H) as [r ->]. eauto.
    + destruct (Ascii.eqb c "%"); intros H.
      * apply (IH _ _ H).
      * destruct (IH _ _ H) as [r ->]. eauto.
Qed.

Lemma template_ok_format t arg :
  template_ok t = true -> exists key, pct_format t arg = Ok key.
Proof. apply template_scan_format. Qed.

Lemma startswith_app a b : startswith (a +:+ b) a = true.
Proof.
  unfold startswith. induction a as [|c a IH]; simpl.
  - now destruct b.
  - destruct (ascii_dec c c); [exact IH | congruence].
Qed.

Lemma str_drop_app a b : str_drop (String.length a) (a +:+ b) = b.
Proof. induction a as [|c a IH]; simpl; [reflexivity | exact IH]. Qed.

(** ** The hooks *)

(** The retrieval branch of [process_request]. *)
Lemma process_request_retrieval req mw w key :
  startswith (path req) (TRACE_URL cfg) = true ->
  pct_format (CACHE_PREFIX cfg)
    (str_drop (String.length (TRACE_URL cfg)) (path req)) = Ok key ->
  process_request cfg req (mw, w)
  = (Ok (req,
         Some (HttpResponse
                 (json_dumps
                    match cache w !! key with
                    | Some (v, written, ttl) =>
                        if expired written ttl (clock (reads w)) then EmptyDict else Data v
                    | None => EmptyDict
                    end)
                 "application/json; charset=UTF-8")),
     (mw, tick w)).
Proof.
  intros Hpre Hkey. unfold process_request. rewrite Hpre. simpl.
  unfold bind, lift. rewrite Hkey.
  unfold cache_get, bind, time_time, gets, ret. simpl.
  destruct (cache w !! key) as [[[v written] ttl]|]; [|reflexivity].
  now destruct (expired written ttl (clock (reads w))).
Qed.

(** The world after a traced [process_response]. *)
Lemma process_response_traced req resp mw w start_time key :
  _speedtracer_start_time req = Some start_time ->
  pct_format (CACHE_PREFIX cfg) (uuid4 (uuids w)) = Ok key ->
  process_response cfg req resp (mw, w)
  = (Ok (set_header resp "X-TraceUrl" (TRACE_URL cfg +:+ uuid4 (uuids w))),
     (mw,
      set_cache
        (<[ key := (build_trace req (uuid4 (uuids w)) (clock (S (reads w)))
                      start_time (clock (reads w)) (traces mw),
                    clock (S (S (reads w))),
                    default 3600%Z (SPEEDTRACER_TRACE_TTL cfg)) ]> (cache w))
        (tick (tick (draw (tick (set_tracing false w))))))).
Proof.
  intros Hstart Hkey. unfold process_response. rewrite Hstart.
  unfold bind, sys_settrace, modify, time_time, uuid_uuid4, gets, lift, cache_set, ret.
  simpl. now rewrite Hkey.
Qed.

(** C6.  A retrieval request (its path starts with [TRACE_URL]) whose key
    has no entry in the cache, or an entry that has expired, is answered
    with status 200 and the JSON serialisation of the empty dict; the
    configured key prefix is assumed to be a well-formed template. *)
Theorem C6_unknown_key_returns_placeholder req mw w :
  startswith (path req) (TRACE_URL cfg) = true ->
  template_ok (CACHE_PREFIX cfg) = true ->
  (forall key,
     pct_format (CACHE_PREFIX cfg)
       (str_drop (String.length (TRACE_URL cfg)) (path req)) = Ok key ->
     unavailable w key) ->
  exists r,
    process_request cfg req (mw, w) = (Ok (req, Some r), (mw, tick w))
    /\ status_code r = 200%Z
    /\ content r = json_dumps EmptyDict.
Proof.
  intros Hpre Hok Hgone.
  destruct (template_ok_format _
              (str_drop (String.length (TRACE_URL cfg)) (path req)) Hok) as [key Hkey].
  specialize (Hgone key Hkey). unfold unavailable in Hgone.
  rewrite (process_request_retrieval req mw w key Hpre Hkey).
  eexists. split; [reflexivity|]. simpl. split; [reflexivity|].
  destruct (cache w !! key) as [[[v written] ttl]|]; [|reflexivity].
  now rewrite Hgone.
Qed.

(** C8.  When the request carries no start timestamp, [process_response]
    returns the response it was given; the cache is untouched, no
    identifier is drawn and the clock is not read.  Its only effect is
    [sys.settrace(None)]. *)
Theorem C8_untraced_response_unmodified req resp mw w :
  _speedtracer_start_time req = None ->
  process_response cfg req resp (mw, w) = (Ok resp, (mw, set_tracing false w))
  /\ cache (set_tracing false w) = cache w
  /\ uuids (set_tracing false w) = uuids w
  /\ reads (set_tracing false w) = reads w.
Proof.
  intros Hstart. unfold process_response. rewrite Hstart.
  repeat split.
Qed.

(** C9.  A traced request stores the assembled document under
    [CACHE_PREFIX % trace_id] and sets [X-TraceUrl] to [TRACE_URL]
    followed by [trace_id]; a later request for that URL, made while the
    entry is still in the cache and not expired, is answered with status
    200 and the serialisation of exactly that document. *)
Theorem C9_trace_roundtrip req resp mw w start_time :
  _speedtracer_start_time req = Some start_time ->
  template_ok (CACHE_PREFIX cfg) = true ->
  let ident := uuid4 (uuids w) in
  let ttl := default 3600%Z (SPEEDTRACER_TRACE_TTL cfg) in
  let written := clock (S (S (reads w))) in
  let doc := build_trace req ident (clock (S (reads w))) start_time
               (clock (reads w)) (traces mw) in
  exists key w',
    pct_format (CACHE_PREFIX cfg) ident = Ok key
    /\ process_response cfg req resp (mw, w)
       = (Ok (set_header resp "X-TraceUrl" (TRACE_URL cfg +:+ ident)), (mw, w'))
    /\ cache w' !! key = Some (doc, written, ttl)
    /\ forall req2 mw2 w2,
         path req2 = TRACE_URL cfg +:+ ident ->
         cache w2 !! key = cache w' !! key ->
         expired written ttl (clock (reads w2)) = false ->
         exists r,
           process_request cfg req2 (mw2, w2) = (Ok (req2, Some r), (mw2, tick w2))
           /\ status_code r = 200%Z
           /\ content r = json_dumps (Data doc).
Proof.
  intros Hstart Hok ident ttl written doc.
  destruct (template_ok_format _ ident Hok) as [key Hkey].
  exists key. eexists. split; [exact Hkey|].
  split; [apply (process_response_traced req resp mw w start_time key Hstart Hkey)|].
  simpl. rewrite lookup_insert_eq. split; [reflexivity|].
  intros req2 mw2 w2 Hpath Hsame Hlive.
  erewrite process_request_retrieval.
  - eexists. split; [reflexivity|]. simpl. split; [reflexivity|].
    rewrite Hsame. fold written ttl. now rewrite Hlive.
  - rewrite Hpath. apply startswith_app.
  - rewrite Hpath, str_drop_app. exact Hkey.
Qed.

(** C10.  For a traced request [process_response] returns the response it
    was given with the header [X-TraceUrl] set: status and body are those
    of the response given, and every other header is as it was. *)
Theorem C10_traced_response_only_gains_header req resp mw w start_time :
  _speedtracer_start_time req = Some start_time ->
  template_ok (CACHE_PREFIX cfg) = true ->
  exists resp' s',
    process_response cfg req resp (mw, w) = (Ok resp', s')
    /\ status_code resp' = status_code resp
    /\ content resp' = content resp
    /\ headers resp' !! "x-traceurl"
       = Some ("X-TraceUrl", TRACE_URL cfg +:+ uuid4 (uuids w))
    /\ forall name, name <> "x-traceurl" -> headers resp' !! name = headers resp !! name.
Proof.
  intros Hstart Hok.
  destruct (template_ok_format _ (uuid4 (uuids w)) Hok) as [key Hkey].
  rewrite (process_response_traced req resp mw w start_time key Hstart Hkey).
  eexists _, _. split; [reflexivity|]. simpl.
  repeat split.
  - apply lookup_insert_eq.
  - intros name Hne. now apply lookup_insert_ne.
Qed.

(** [process_request] never touches the recorder: neither branch assigns
    [self.traces] or [self.call_stack]. *)
Lemma process_request_keeps_recorder req mw w :
  (process_request cfg req (mw, w)).2.1 = mw.
Proof.
  unfold process_request.
  destruct (startswith (path req) (TRACE_URL cfg)); simpl; [|reflexivity].
  unfold bind, lift.
  destruct (pct_format _ _) as [key|e]; [|reflexivity].
  unfold cache_get, bind, time_time, gets, ret. simpl.
  destruct (cache w !! key) as [[[v written] ttl]|]; [|reflexivity].
  now destruct (expired written ttl (clock (reads w))).
Qed.

(** With no [SPEEDTRACER_FILE_FILTER_RE] configured, construction raises
    whatever [sys.modules] holds: line 75 is reached at the latest. *)
Lemma init_without_filter_raises sys_modules :
  SPEEDTRACER_FILE_FILTER_RE cfg = None ->
  exists e, __init__ cfg sys_modules = Raise e.
Proof.
  intros H. unfold __init__. rewrite H. unfold bind.
  destruct (collect_app_dirs cfg sys_modules (INSTALLED_APPS cfg) ∅) as [[[]|e] dirs];
    simpl; eauto.
Qed.

End Properties.

(** * The recorder on the concrete platform *)

(** C1.  Two requests handled one after the other by the same middleware.
    After the first, [traces] holds the record of [page_handler]; after
    [process_request] of the second it still does, and the document that
    the second request stores (no call was recorded during it) has that
    record as the child of its root.  Likewise a record left on the stack
    by the first request is still there when the second starts. *)
Theorem C1_next_request_keeps_previous_spans :
  let second := demo_request "/app/other" in
  let s2 := (process_request (J := demo_json) demo_cfg second after_first_request).2 in
  let s3 := (handle "/app/other" [] after_first_request).2 in
  let s2' := (process_request (J := demo_json) demo_cfg second after_interrupted_request).2 in
  map shape (traces after_first_request.1) = map call_tree demo_calls
  /\ traces s2.1 = traces after_first_request.1
  /\ length (call_stack after_interrupted_request.1) = 1%nat
  /\ call_stack s2'.1 = call_stack after_interrupted_request.1
  /\ (fun e => frameStack e.1.1) <$> (cache s3.2 !! "speedtracer-uu")
     = Some {| span_id := 0;
               span_operation := {| location := None; type := HTTP;
                                    label := "GET /app/other" |};
               children := traces after_first_request.1;
               span_range := @Range demo 1008%Z 1009%Z 1%Z |}.
Proof.
  intros second s2 s3 s2'. subst s2 s2'.
  split; [reflexivity|].
  split.
  { destruct after_first_request as [m w0].
    now rewrite process_request_keeps_recorder. }
  split; [reflexivity|].
  split.
  { destruct after_interrupted_request as [m w0].
    now rewrite process_request_keeps_recorder. }
  reflexivity.
Qed.

(** C4.  A return event on a matching path with an empty stack: the
    callback raises [TypeError] (line 129) instead of reporting and going
    on; nothing is written to [stderr]. *)
Theorem C4_return_on_empty_stack_raises :
  trace_callback demo_cfg page_handler EvReturn (demo_mw, demo_world)
  = (Raise TypeError, (demo_mw, tick demo_world))
  /\ stderr (tick demo_world) = []
  /\ (feed demo_cfg [(EvReturn, page_handler); (EvCall, page_handler)]
        (demo_mw, demo_world)).1 = Raise TypeError.
Proof. repeat split; reflexivity. Qed.

(** C7.  Construction with no file filter configured and
    [INSTALLED_APPS = ["blog"]].  When [sys.modules] has no entry ["blog"]
    but a key that starts with it, the [KeyError] is caught and the
    handler itself raises [TypeError] (line 71); when ["blog"] is a plain
    module without [__path__], [AttributeError] is not caught; and when
    ["blog"] is a package with one directory, line 75 raises [TypeError]. *)
Theorem C7_filter_construction_raises :
  __init__ demo_cfg_auto modules_prefix_only = Raise TypeError
  /\ __init__ demo_cfg_auto modules_plain = Raise AttributeError
  /\ __init__ demo_cfg_auto modules_package = Raise TypeError.
Proof. repeat split; reflexivity. Qed.

(** ** The statements at the concrete run *)

(** The scenario of the specification: the labels recorded for
    [page_handler] calling [load], in depth-first order. *)
Example demo_labels :
  map (fun s => label (span_operation s))
      (flat_map flatten (traces after_first_request.1))
  = ["views.page_handler"; "models.Page.load"].
Proof. reflexivity. Qed.

(** With a framework frame between the two, [load] is recorded directly
    under [page_handler]. *)
Example demo_mixed_shape :
  flat_map (recorded (matches demo_mw)) demo_calls_mixed
  = map call_tree demo_calls.
Proof. reflexivity. Qed.

(** The default key template. *)
Example demo_key : pct_format "speedtracer-%s" "abc" = Ok "speedtracer-abc".
Proof. reflexivity. Qed.

Lemma demo_clock_monotone : @monotone_clock demo.
Proof. intros i j H. apply Z.leb_le. simpl. lia. Defined.

Lemma C2_witness :
  let evs := flat_map (events_of (fun _ => true)) demo_calls in
  exists mw' w',
    feed demo_cfg evs (demo_mw, demo_world) = (Ok tt, (mw', w'))
    /\ call_stack mw' = []
    /\ map shape (traces mw') = map call_tree demo_calls
    /\ map span_operation (flat_map flatten (traces mw'))
       = map operation_of (calls_in evs).
Proof.
  apply (C2_traces_reproduce_call_forest demo_cfg demo_calls demo_mw demo_world);
    reflexivity.
Defined.

Lemma C3_witness :
  (forall fr ev, matches demo_mw fr = false ->
     trace_callback demo_cfg fr ev (demo_mw, demo_world) = (Ok None, (demo_mw, demo_world)))
  /\ exists done w',
       feed demo_cfg (flat_map (events_of (matches demo_mw)) demo_calls_mixed)
         (demo_mw, demo_world)
       = (Ok tt, (attach demo_mw done, w'))
       /\ map shape done = flat_map (recorded (matches demo_mw)) demo_calls_mixed.
Proof.
  apply (C3_unmatched_frames_are_transparent demo_cfg (matches demo_mw)
           demo_calls_mixed demo_mw demo_world).
  intros fr H. exact H.
Defined.

Lemma C5_witness :
  Forall (fun s => exists a b d,
            span_range s = Range a b d
            /\ float_leb a b = true
            /\ d = float_sub b a)
         (completed
            (feed demo_cfg (flat_map (events_of (fun _ => true)) demo_calls)
               (demo_mw, demo_world)).2.1).
Proof.
  apply (C5_closed_ranges_are_ordered demo_cfg
           (flat_map (events_of (fun _ => true)) demo_calls) demo_mw demo_world).
  - exact demo_clock_monotone.
  - reflexivity.
  - reflexivity.
Defined.

Lemma C6_witness :
  exists r,
    process_request (J := demo_json) demo_cfg (demo_request "/__speedtracer__/nothing")
      (demo_mw, demo_world)
    = (Ok (demo_request "/__speedtracer__/nothing", Some r), (demo_mw, tick demo_world))
    /\ status_code r = 200%Z
    /\ content r = "{}".
Proof.
  apply (C6_unknown_key_returns_placeholder (J := demo_json) demo_cfg
           (demo_request "/__speedtracer__/nothing") demo_mw demo_world).
  - reflexivity.
  - reflexivity.
  - intros key _. unfold unavailable. simpl. now rewrite lookup_empty.
Defined.

Lemma C8_witness :
  process_response demo_cfg (demo_request "/__speedtracer__/nothing") demo_response
    (demo_mw, demo_world)
  = (Ok demo_response, (demo_mw, set_tracing false demo_world))
  /\ cache (set_tracing false demo_world) = cache demo_world
  /\ uuids (set_tracing false demo_world) = uuids demo_world
  /\ reads (set_tracing false demo_world) = reads demo_world.
Proof.
  apply (C8_untraced_response_unmodified demo_cfg
           (demo_request "/__speedtracer__/nothing") demo_response demo_mw demo_world).
  reflexivity.
Defined.

Lemma C9_witness :
  let doc := build_trace traced_request "u" 1001%Z 1000%Z 1000%Z [] in
  exists key w',
    pct_format "speedtracer-%s" "u" = Ok key
    /\ process_response demo_cfg traced_request demo_response (demo_mw, demo_world)
       = (Ok (set_header demo_response "X-TraceUrl" "/__speedtracer__/u"), (demo_mw, w'))
    /\ cache w' !! key = Some (doc, 1002%Z, 3600%Z)
    /\ forall req2 mw2 w2,
         path req2 = "/__speedtracer__/u" ->
         cache w2 !! key = cache w' !! key ->
         @expired demo 1002%Z 3600%Z (clock (reads w2)) = false ->
         exists r,
           process_request (J := demo_json) demo_cfg req2 (mw2, w2)
           = (Ok (req2, Some r), (mw2, tick w2))
           /\ status_code r = 200%Z
           /\ content r = @json_dumps demo demo_json (Data doc).
Proof.
  apply (C9_trace_roundtrip (J := demo_json) demo_cfg traced_request demo_response
           demo_mw demo_world 1000%Z); reflexivity.
Defined.

Lemma C10_witness :
  exists resp' s',
    process_response demo_cfg traced_request demo_response (demo_mw, demo_world)
    = (Ok resp', s')
    /\ status_code resp' = status_code demo_response
    /\ content resp' = content demo_response
    /\ headers resp' !! "x-traceurl" = Some ("X-TraceUrl", "/__speedtracer__/u")
    /\ forall name, name <> "x-traceurl" ->
         headers resp' !! name = headers demo_response !! name.
Proof.
  apply (C10_traced_response_only_gains_header demo_cfg traced_request demo_response
           demo_mw demo_world 1000%Z); reflexivity.
Defined.

(** * Further properties of the recorder *)

Section Recorder_properties.
Context {P : Platform} {J : Json}.
Variable cfg : settings.

(** [trace_callback] takes one of the five transitions. *)
Lemma trace_callback_Step fr ev s : Step cfg fr ev s (trace_callback cfg fr ev s).
Proof.
  destruct s as [[ff tr st] w].
  destruct (relevant ff (ev, fr)) eqn:Hrel.
  - apply andb_prop in Hrel as [Hev Hm]. simpl in Hev, Hm.
    destruct ev; try discriminate.
    + rewrite step_call by exact Hm. now apply Step_call.
    + destruct (pop st) as [[below top]|] eqn:E.
      * apply pop_Some in E. subst st.
        destruct (span_range top) as [t|a b d] eqn:Hr.
        -- rewrite (step_return cfg fr ff tr below top t w Hm Hr).
           now apply Step_return.
        -- replace (trace_callback cfg fr EvReturn _)
             with (@Raise (option tracefunc) KeyError,
                   (recorder ff tr below, tick (debug_world cfg EvReturn fr w))).
           ++ now apply (Step_return_closed cfg fr EvReturn ff tr below top a b d).
           ++ unfold trace_callback, debug_world, bind, gets, ret, print, modify,
                time_time, raise. simpl. rewrite Hm. simpl.
              destruct (DEBUG cfg); simpl; now rewrite pop_snoc, Hr.
      * apply pop_None in E. subst st.
        rewrite (step_return_empty cfg fr ff tr w Hm). now apply Step_return_empty.
  - rewrite step_ignored.
    + now apply Step_ignored.
    + unfold relevant in Hrel. simpl in Hrel. unfold matches. simpl.
      destruct (is_call_or_return ev); [now right | now left].
Qed.

Lemma feed_cons ev fr rest s :
  feed cfg ((ev, fr) :: rest) s
  = match trace_callback cfg fr ev s with
    | (Ok _, s1) => feed cfg rest s1
    | (Raise e, s1) => (Raise e, s1)
    end.
Proof. reflexivity. Qed.

Lemma Step_file_filter fr ev s r :
  Step cfg fr ev s r -> file_filter r.2.1 = file_filter s.1.
Proof. intros []; simpl; try reflexivity. apply file_filter_attach. Qed.

Lemma traces_attach mw done :
  exists added, traces (attach mw done) = traces mw ++ added.
Proof.
  unfold attach. destruct (pop (call_stack mw)) as [[below top]|]; simpl.
  - exists []. now rewrite app_nil_r.
  - now exists done.
Qed.

Lemma length_stack_attach mw done :
  length (call_stack (attach mw done)) = length (call_stack mw).
Proof.
  unfold attach. destruct (pop (call_stack mw)) as [[below top]|] eqn:E; simpl.
  - apply pop_Some in E. rewrite E, !length_app. reflexivity.
  - apply pop_None in E. now rewrite E.
Qed.

Lemma all_open_attach mw done :
  all_open (call_stack mw) -> all_open (call_stack (attach mw done)).
Proof.
  unfold all_open. intros H.
  now apply (stack_attach (fun r => exists t, r = StartOnly t)).
Qed.

Lemma records_attach ff tr below done :
  length (records (attach (recorder ff tr below) done))
  = length (records (recorder ff tr below)) + length (flat_map flatten done).
Proof.
  unfold attach, records. simpl.
  destruct (pop below) as [[b t]|] eqn:E; simpl.
  - apply pop_Some in E. subst below.
    rewrite !flat_map_app. simpl. rewrite !flat_map_app, !app_nil_r.
    rewrite !length_app. simpl. rewrite !length_app.
    destruct t as [i op ch r]. simpl. lia.
  - apply pop_None in E. subst below.
    rewrite !flat_map_app, !app_nil_r, !length_app. lia.
Qed.

Lemma debug_world_fields ev fr w :
  cache (debug_world cfg ev fr w) = cache w
  /\ uuids (debug_world cfg ev fr w) = uuids w
  /\ tracing (debug_world cfg ev fr w) = tracing w
  /\ stderr (debug_world cfg ev fr w) = stderr w
  /\ stdout (debug_world cfg ev fr w)
     = stdout w ++ (if DEBUG cfg
                    then [DebugLine ev (co_name fr) (co_filename fr) (f_lineno fr)]
                    else []).
Proof.
  unfold debug_world. destruct (DEBUG cfg); simpl; repeat split.
  now rewrite app_nil_r.
Qed.

Lemma Step_world fr ev s r :
  Step cfg fr ev s r ->
  cache r.2.2 = cache s.2 /\ uuids r.2.2 = uuids s.2
  /\ tracing r.2.2 = tracing s.2 /\ stderr r.2.2 = stderr s.2
  /\ stdout r.2.2 = stdout s.2 ++ debug_lines cfg (file_filter s.1) [(ev, fr)].
Proof.
  intros [ff tr st w Hrel|ff tr st w Hm ->|ff tr below top t w Hm -> Hr
         |ff tr w Hm ->|ff tr below top a b d w Hm -> Hr];
    unfold debug_lines; cbn [List.filter fst snd file_filter recorder];
    rewrite ?Hrel; unfold relevant; cbn [fst snd is_call_or_return andb];
    rewrite ?Hm; cbn [map fst snd].
  - repeat split. destruct (DEBUG cfg); now rewrite app_nil_r.
  - destruct (debug_world_fields EvCall fr w) as (Hc & Hu & Ht & He & Ho).
    cbn. now rewrite Hc, Hu, Ht, He, Ho.
  - destruct (debug_world_fields EvReturn fr w) as (Hc & Hu & Ht & He & Ho).
    cbn. now rewrite Hc, Hu, Ht, He, Ho.
  - destruct (debug_world_fields EvReturn fr w) as (Hc & Hu & Ht & He & Ho).
    cbn. now rewrite Hc, Hu, Ht, He, Ho.
  - destruct (debug_world_fields EvReturn fr w) as (Hc & Hu & Ht & He & Ho).
    cbn. now rewrite Hc, Hu, Ht, He, Ho.
Qed.

Lemma filter_relevant_eq ff ff' (evs : list (event * frame)) :
  ff' = ff -> List.filter (relevant ff') evs = List.filter (relevant ff) evs.
Proof. now intros ->. Qed.

(** X1.  Events that are not [call] or [return], and events of frames on a
    path the filter does not match, can be dropped from a run: the outcome
    and the final state are those of the run without them. *)
Theorem X1_feed_skips_irrelevant_events (evs : list (event * frame)) mw w :
  feed cfg evs (mw, w)
  = feed cfg (List.filter (relevant (file_filter mw)) evs) (mw, w).
Proof.
  revert mw w. induction evs as [|[ev fr] evs IH]; intros mw w; [reflexivity|].
  cbn [List.filter].
  destruct (relevant (file_filter mw) (ev, fr)) eqn:Hrel.
  - rewrite !feed_cons.
    pose proof (Step_file_filter fr ev _ _ (trace_callback_Step fr ev (mw, w))) as Hff.
    destruct (trace_callback cfg fr ev (mw, w)) as [[a|e] [mw1 w1]]; [|reflexivity].
    simpl in Hff. rewrite IH. now rewrite (filter_relevant_eq _ _ evs Hff).
  - rewrite feed_cons, step_ignored; [apply IH|].
    unfold relevant in Hrel. simpl in Hrel. unfold matches.
    destruct (is_call_or_return ev); [now right | now left].
Qed.


(** X3.  A run that completes has printed one line for each relevant
    event, in order, when [DEBUG] is set, and nothing otherwise. *)
Theorem X3_debug_prints_the_relevant_events (evs : list (event * frame)) s s' :
  feed cfg evs s = (Ok tt, s') ->
  stdout s'.2 = stdout s.2 ++ debug_lines cfg (file_filter s.1) evs.
Proof.
  revert s. induction evs as [|[ev fr] evs IH]; intros s; simpl.
  - intros [= <-]. unfold debug_lines. destruct (DEBUG cfg); simpl; now rewrite app_nil_r.
  - unfold bind.
    pose proof (trace_callback_Step fr ev s) as HS.
    destruct (Step_world fr ev _ _ HS) as (_ & _ & _ & _ & Ho).
    apply Step_file_filter in HS.
    destruct (trace_callback cfg fr ev s) as [[a|e] s1]; [|discriminate].
    simpl in *. intros Hrest. rewrite (IH _ Hrest), Ho, HS.
    unfold debug_lines. cbn [List.filter].
    destruct (DEBUG cfg); [|now rewrite !app_nil_r].
    destruct (relevant (file_filter s.1) (ev, fr)); simpl; now rewrite <- ?app_assoc.
Qed.

(** X4.  [traces] only grows: whatever the events, the list after the run
    starts with the list before it. *)
Theorem X4_traces_is_append_only (evs : list (event * frame)) s :
  exists added, traces (feed cfg evs s).2.1 = traces s.1 ++ added.
Proof.
  revert s. induction evs as [|[ev fr] evs IH]; intros s.
  - exists []. simpl. now rewrite app_nil_r.
  - rewrite feed_cons.
    assert (Hstep : exists added,
               traces (trace_callback cfg fr ev s).2.1 = traces s.1 ++ added).
    { destruct (trace_callback_Step fr ev s); simpl;
        try (exists []; now rewrite app_nil_r).
      apply (traces_attach (recorder ff tr below)). }
    destruct (trace_callback cfg fr ev s) as [[a|e] s1]; simpl in *; [|exact Hstep].
    destruct Hstep as [a1 H1]. destruct (IH s1) as [a2 H2].
    exists (a1 ++ a2). now rewrite H2, H1, app_assoc.
Qed.

(** X5.  A run that completes neither loses nor invents a record: the
    number of records held (in [traces], on the stack and below them)
    grows by the number of [call] events on matching paths. *)
Theorem X5_one_record_per_recorded_call (evs : list (event * frame)) s s' :
  feed cfg evs s = (Ok tt, s') ->
  length (records s'.1)
  = length (records s.1) + length (recorded_calls (file_filter s.1) evs).
Proof.
  revert s. induction evs as [|[ev fr] evs IH]; intros s.
  - intros [= <-]. simpl. lia.
  - rewrite feed_cons.
    pose proof (trace_callback_Step fr ev s) as HS.
    destruct (trace_callback cfg fr ev s) as [[a|e] s1]; [|discriminate].
    intros Hrest. rewrite (IH _ Hrest).
    pose proof (Step_file_filter _ _ _ _ HS) as Hff. simpl in Hff. rewrite Hff.
    unfold recorded_calls. cbn [List.filter fst snd].
    inversion HS as [ff tr st w Hrel|ff tr st w Hm Hev|ff tr below top t w Hm Hev Hr
                    | |]; subst; simpl.
    + unfold relevant in Hrel. simpl in Hrel.
      destruct ev; simpl in *; try lia. rewrite Hrel. lia.
    + rewrite Hm. unfold records. simpl.
      rewrite !flat_map_app, !length_app. simpl. lia.
    + rewrite records_attach. unfold records. simpl.
      rewrite !flat_map_app, !length_app. simpl.
      rewrite app_nil_r. destruct top as [i op ch r]. simpl. lia.
Qed.

(** X6.  Starting with open records on the stack, a run raises exactly
    when one of its relevant [return] events finds the stack empty, and
    then it raises [TypeError]; [KeyError] never occurs. *)
Theorem X6_feed_raises_iff_unbalanced (evs : list (event * frame)) mw w :
  all_open (call_stack mw) ->
  (feed cfg evs (mw, w)).1
  = if balanced (file_filter mw) (length (call_stack mw)) evs
    then Ok tt else Raise TypeError.
Proof.
  revert mw w. induction evs as [|[ev fr] evs IH]; intros mw w Hopen; [reflexivity|].
  rewrite feed_cons. cbn [balanced].
  pose proof (trace_callback_Step fr ev (mw, w)) as HS.
  destruct (trace_callback cfg fr ev (mw, w)) as [r [mw1 w1]].
  inversion HS as [ff tr st w0 Hrel|ff tr st w0 Hm Hev|ff tr below top t w0 Hm Hev Hr
                  |ff tr w0 Hm Hev|ff tr below top a b d w0 Hm Hev Hr]; subst; simpl in *.
  - rewrite Hrel. now apply IH.
  - unfold relevant. simpl. rewrite Hm. simpl.
    rewrite IH; simpl.
    + now rewrite length_app, Nat.add_1_r.
    + apply Forall_app. split; [exact Hopen|]. apply Forall_singleton. now eexists.
  - unfold relevant. simpl. rewrite Hm. simpl.
    apply Forall_app in Hopen as [Hbelow _].
    rewrite length_app, Nat.add_1_r.
    rewrite IH by now apply (all_open_attach (recorder ff tr below)).
    now rewrite file_filter_attach, length_stack_attach.
  - unfold relevant. simpl. now rewrite Hm.
  - apply Forall_app in Hopen as [_ Htop].
    apply Forall_singleton in Htop as [t Ht]. congruence.
Qed.

(** ** Nesting *)

(** Arithmetic goals; facts of the form [within lo hi s] are set aside
    first. *)
Ltac order_lia :=
  repeat match goal with H : within _ _ _ |- _ => clear H end; lia.

Lemma within_lt lo hi s : within lo hi s -> (lo < hi)%nat.
Proof. inversion_clear 1. lia. Qed.

Lemma within_weaken lo hi lo' hi' s :
  within lo hi s -> (lo' <= lo)%nat -> (hi <= hi')%nat -> within lo' hi' s.
Proof.
  inversion 1 as [? ? ? i j Hlo Hij Hj Hr Hch]; subst. intros.
  apply (within_intro lo' hi' s i j); try assumption; order_lia.
Qed.

Lemma seq_within_le lo hi l : seq_within lo hi l -> (lo <= hi)%nat.
Proof.
  revert lo. induction l as [|c l IH]; intros lo; inversion 1; subst; [assumption|].
  match goal with
  | Hc : within _ _ c, Hl : seq_within _ _ l |- _ =>
      apply within_lt in Hc; apply IH in Hl; order_lia
  end.
Qed.

Lemma seq_within_weaken_hi lo hi hi' l :
  seq_within lo hi l -> (hi <= hi')%nat -> seq_within lo hi' l.
Proof.
  revert lo. induction l as [|c l IH]; intros lo; inversion 1; subst; intros Hle.
  - apply seq_nil. order_lia.
  - eapply seq_cons; eauto.
Qed.

Lemma seq_within_snoc lo mid hi l c :
  seq_within lo mid l -> within mid hi c -> seq_within lo hi (l ++ [c]).
Proof.
  revert lo. induction l as [|a l IH]; intros lo; inversion 1; subst; intros Hc; simpl.
  - apply (seq_cons lo hi hi).
    + apply (within_weaken mid hi); [assumption | assumption | order_lia].
    + apply seq_nil. order_lia.
  - eapply seq_cons; eauto.
Qed.

Lemma seq_within_split lo hi l1 l2 :
  seq_within lo hi (l1 ++ l2) ->
  exists mid, seq_within lo mid l1 /\ seq_within mid hi l2.
Proof.
  revert lo. induction l1 as [|a l1 IH]; intros lo; simpl.
  - intros H. exists lo. split; [apply seq_nil; order_lia | exact H].
  - inversion 1; subst.
    match goal with
    | Hl : seq_within _ _ (l1 ++ l2) |- _ => destruct (IH _ Hl) as (m & H1 & H2)
    end.
    exists m. split; [eapply seq_cons; eauto | exact H2].
Qed.

Lemma seq_within_In lo hi l c :
  seq_within lo hi l -> In c l -> within lo hi c.
Proof.
  revert lo. induction l as [|a l IH]; intros lo Hseq Hin; [destruct Hin|].
  inversion Hseq; subst. destruct Hin as [->|Hin].
  - match goal with
    | Hc : within _ _ c, Hl : seq_within _ _ l |- _ =>
        apply seq_within_le in Hl; apply (within_weaken _ _ _ _ _ Hc); order_lia
    end.
  - match goal with
    | Ha : within _ _ a, Hl : seq_within _ _ l |- _ =>
        apply within_lt in Ha; apply (within_weaken _ _ _ _ _ (IH _ Hl Hin)); order_lia
    end.
Qed.

Lemma stack_within_le lo n st : stack_within lo n st -> (lo <= n)%nat.
Proof.
  revert lo. induction st as [|p st IH]; intros lo; simpl; [trivial|].
  intros (i & mid & Hlo & Him & _ & _ & Hrest). apply IH in Hrest. order_lia.
Qed.

Lemma stack_within_push lo n st p :
  span_range p = StartOnly (clock n) ->
  children p = [] ->
  stack_within lo n st -> stack_within lo (S n) (st ++ [p]).
Proof.
  intros Hr Hc. revert lo. induction st as [|q st IH]; intros lo; simpl.
  - intros Hle. exists n, (S n). rewrite Hc. repeat split; try order_lia; try assumption.
    apply seq_nil. order_lia.
  - intros (i & mid & Hlo & Him & Hq & Hch & Hrest).
    exists i, mid. repeat split; auto.
Qed.

Lemma stack_within_top lo n below top :
  stack_within lo n (below ++ [top]) -> exists i, span_range top = StartOnly (clock i).
Proof.
  revert lo. induction below as [|q below IH]; intros lo; simpl.
  - intros (i & mid & _ & _ & Hr & _). now exists i.
  - intros (i & mid & _ & _ & _ & _ & Hrest). now apply (IH mid).
Qed.

Lemma attach_cons ff tr q q' below done :
  attach (recorder ff tr (q :: q' :: below)) done
  = recorder ff tr (q :: call_stack (attach (recorder ff tr (q' :: below)) done))
  /\ traces (attach (recorder ff tr (q' :: below)) done) = tr.
Proof.
  unfold attach. cbn [call_stack recorder].
  change (pop (q :: q' :: below))
    with (match pop (q' :: below) with
          | None => Some ([], q)
          | Some (rest, y) => Some (q :: rest, y)
          end).
  destruct (pop (q' :: below)) as [[rest y]|] eqn:E.
  - now split.
  - apply pop_None in E. discriminate.
Qed.

(** Closing the record on top of the stack at reading [n]. *)
Lemma close_top ff tr n top t below lo :
  stack_within lo n (below ++ [top]) ->
  span_range top = StartOnly t ->
  let closed := set_range top (_build_range t (clock n)) in
  match below with
  | [] => within lo (S n) closed
  | _ =>
      traces (attach (recorder ff tr below) [closed]) = tr
      /\ stack_within lo (S n) (call_stack (attach (recorder ff tr below) [closed]))
  end.
Proof.
  intros H Hr closed. revert lo H.
  induction below as [|q below IH]; intros lo H.
  - simpl in H. destruct H as (i & mid & Hlo & Him & Hri & Hch & Hle).
    rewrite Hr in Hri. injection Hri as ->.
    apply (within_intro lo (S n) closed i n); try order_lia.
    + reflexivity.
    + apply (seq_within_weaken_hi _ mid); [exact Hch | order_lia].
  - cbn [app stack_within] in H.
    destruct H as (i & mid & Hlo & Him & Hq & Hch & Hrest).
    specialize (IH mid Hrest).
    destruct below as [|q' below].
    + unfold attach. simpl. split; [reflexivity|].
      pose proof (within_lt _ _ _ IH).
      exists i, (S n). repeat split; try order_lia; try assumption.
      eapply seq_within_snoc; eauto.
    + destruct IH as [Htr Hst].
      destruct (attach_cons ff tr q q' below [closed]) as [-> _].
      split; [reflexivity|]. simpl.
      exists i, mid. repeat split; assumption.
Qed.

Lemma Step_nested fr ev s r : Step cfg fr ev s r -> nested s -> nested r.2.
Proof.
  intros [ff tr st w Hrel|ff tr st w Hm ->|ff tr below top t w Hm -> Hr
         |ff tr w Hm ->|ff tr below top a b d w Hm -> Hr];
    intros (mid & Htr & Hst); unfold nested in *; simpl in *;
    rewrite ?reads_debug_world.
  - now exists mid.
  - exists mid. split; [exact Htr|]. now apply stack_within_push.
  - pose proof (close_top ff tr (reads w) top t below mid Hst Hr) as Hclose.
    destruct below as [|q below].
    + unfold attach. simpl. exists (S (reads w)). split; [|simpl; order_lia].
      eapply seq_within_snoc; eauto.
    + destruct Hclose as [-> Hst']. now exists mid.
  - exists mid. split; [exact Htr|]. simpl in *. order_lia.
  - destruct (stack_within_top _ _ _ _ Hst) as [i Hi]. congruence.
Qed.

Lemma feed_nested evs s : nested s -> nested (feed cfg evs s).2.
Proof.
  revert s. induction evs as [|[ev fr] evs IH]; intros s Hs; [exact Hs|].
  rewrite feed_cons.
  pose proof (Step_nested fr ev _ _ (trace_callback_Step fr ev s) Hs) as Hstep.
  destruct (trace_callback cfg fr ev s) as [[a|e] s1]; simpl in *; auto.
Qed.

Section Monotone.
Hypothesis Hmono : monotone_clock.

Lemma within_encloses i j s c :
  span_range s = _build_range (clock i) (clock j) ->
  within (S i) j c -> range_encloses s c.
Proof.
  intros Hs. inversion 1; subst.
  match goal with
  | Hc : span_range c = _ |- _ =>
      unfold _build_range in *; do 6 eexists;
      split; [exact Hs|]; split; [exact Hc|]
  end.
  split; apply Hmono; order_lia.
Qed.

Lemma seq_within_in_order lo hi l : seq_within lo hi l -> in_order l.
Proof.
  intros H l1 c1 l2 c2 l3 ->.
  apply seq_within_split in H as (m1 & _ & H).
  inversion H as [|? m2 ? ? ? Hc1 Hrest]; subst.
  apply seq_within_split in Hrest as (m3 & Hl2 & Hrest).
  apply seq_within_le in Hl2.
  inversion Hrest as [|? m4 ? ? ? Hc2 _]; subst.
  inversion Hc1; inversion Hc2; subst.
  unfold _build_range in *.
  do 6 eexists. split; [eassumption|]. split; [eassumption|].
  apply Hmono. order_lia.
Qed.

Lemma within_well_nested :
  (forall lo hi s, within lo hi s -> within lo hi s /\ Forall well_nested (flatten s))
  /\ (forall lo hi l, seq_within lo hi l ->
        seq_within lo hi l /\ Forall well_nested (flat_map flatten l)).
Proof.
  apply within_seq_ind.
  - intros lo hi s i j Hlo Hij Hj Hr _ [Hch IH].
    split; [eapply within_intro; eauto|].
    destruct s as [ident op ch r]. simpl in *. constructor; [|exact IH].
    split; simpl.
    + intros c Hin. eapply within_encloses; [exact Hr|].
      eapply seq_within_In; eauto.
    + eapply seq_within_in_order; eauto.
  - intros lo hi Hle. split; [now apply seq_nil | constructor].
  - intros lo mid hi c l _ [Hc IHc] _ [Hl IHl].
    split; [eapply seq_cons; eauto|].
    simpl. apply Forall_app. now split.
Qed.

Lemma stack_within_well_nested lo n st :
  stack_within lo n st ->
  Forall well_nested (flat_map (fun p => flat_map flatten (children p)) st).
Proof.
  revert lo. induction st as [|p st IH]; intros lo; simpl; [constructor|].
  intros (i & mid & _ & _ & _ & Hch & Hrest).
  apply Forall_app. split; [|now apply (IH mid)].
  now apply (proj2 within_well_nested) in Hch.
Qed.

End Monotone.

(** X7.  With a clock that never goes back, after any events fed to a
    fresh recorder: the range of every completed record encloses the
    ranges of its children, children of one record do not overlap (each
    ended before any later one started), and the same holds for the
    records of [traces]. *)
Theorem X7_recorded_ranges_are_nested (evs : list (event * frame)) mw w :
  monotone_clock ->
  traces mw = [] ->
  call_stack mw = [] ->
  let mw' := (feed cfg evs (mw, w)).2.1 in
  in_order (traces mw') /\ Forall well_nested (completed mw').
Proof.
  intros Hmono Htr Hst mw'.
  assert (Hn : nested (feed cfg evs (mw, w)).2).
  { apply feed_nested. exists 0%nat. simpl. rewrite Htr, Hst. simpl.
    split; [apply seq_nil|]; lia. }
  destruct Hn as (mid & Htraces & Hstack). fold mw' in Htraces, Hstack.
  split.
  - eapply seq_within_in_order; eauto.
  - unfold completed. apply Forall_app. split.
    + now apply (proj2 (within_well_nested Hmono)) in Htraces.
    + eapply stack_within_well_nested; eauto.
Qed.

(** X8.  While a record stays open on the stack (as one left by an
    earlier request does), the calls completed afterwards are filed under
    it: a whole forest of well-nested calls leaves [traces] as it was and
    the stack at the same depth. *)
Theorem X8_open_record_swallows_later_calls
    (local : frame -> bool) (cs : list call) ff tr below top w :
  (forall fr, re_match ff (co_filename fr) = true -> local fr = true) ->
  let mw := recorder ff tr (below ++ [top]) in
  exists done w',
    feed cfg (flat_map (events_of local) cs) (mw, w)
    = (Ok tt,
       (recorder ff tr
          (below ++ [{| span_id := span_id top;
                        span_operation := span_operation top;
                        children := children top ++ done;
                        span_range := span_range top |}]),
        w'))
    /\ map shape done = flat_map (recorded (matches mw)) cs.
Proof.
  intros Hlocal mw.
  destruct (runs_to_forest cfg local cs) with (mw := mw) (w := w)
    as (done & w' & E & S).
  { apply Forall_forall. intros c _. apply runs_to_call. }
  { exact Hlocal. }
  exists done, w'. split; [|exact S].
  rewrite E. unfold attach, mw. simpl. now rewrite pop_snoc.
Qed.

(** ** The hooks and the recorder *)

Lemma process_response_keeps_recorder req resp mw w :
  (process_response cfg req resp (mw, w)).2.1 = mw
  /\ tracing (process_response cfg req resp (mw, w)).2.2 = false.
Proof.
  unfold process_response, bind, sys_settrace, modify. simpl.
  destruct (_speedtracer_start_time req) as [start_time|]; [|now split].
  unfold time_time, uuid_uuid4, gets, lift, bind. simpl.
  destruct (pct_format _ _) as [key|e]; now split.
Qed.

(** X9.  Neither hook assigns to the recorder: [file_filter], [traces] and
    [call_stack] are after [process_request] and after [process_response]
    what they were before, in every branch. *)
Theorem X9_hooks_leave_the_recorder_alone req resp mw w :
  (process_request cfg req (mw, w)).2.1 = mw
  /\ (process_response cfg req resp (mw, w)).2.1 = mw.
Proof.
  split; [apply process_request_keeps_recorder | apply process_response_keeps_recorder].
Qed.

(** X10.  [process_response] always uninstalls the trace function: with or
    without a start timestamp, and also when formatting the cache key
    raises. *)
Theorem X10_process_response_stops_tracing req resp s :
  tracing (process_response cfg req resp s).2.2 = false.
Proof. destruct s as [mw w]. apply process_response_keeps_recorder. Qed.

(** X11.  A retrieval request is never traced.  For a fresh request whose
    path starts with [TRACE_URL], [process_request] answers at once, sets
    no start timestamp, does not install the trace function and leaves the
    cache and the uuid source alone; [process_response] then returns that
    answer as it is and stores nothing. *)
Theorem X11_retrieval_requests_are_not_traced req mw w :
  startswith (path req) (TRACE_URL cfg) = true ->
  _speedtracer_start_time req = None ->
  template_ok (CACHE_PREFIX cfg) = true ->
  exists r w1,
    process_request cfg req (mw, w) = (Ok (req, Some r), (mw, w1))
    /\ tracing w1 = tracing w /\ cache w1 = cache w /\ uuids w1 = uuids w
    /\ process_response cfg req r (mw, w1) = (Ok r, (mw, set_tracing false w1))
    /\ cache (set_tracing false w1) = cache w.
Proof.
  intros Hpre Hstart Hok.
  destruct (template_ok_format _
              (str_drop (String.length (TRACE_URL cfg)) (path req)) Hok) as [key Hkey].
  rewrite (process_request_retrieval cfg req mw w key Hpre Hkey).
  eexists _, _. split; [reflexivity|]. simpl. repeat split.
  unfold process_response. now rewrite Hstart.
Qed.

Lemma Step_reads fr ev s r : Step cfg fr ev s r -> (reads s.2 <= reads r.2.2)%nat.
Proof. intros []; simpl; rewrite ?reads_debug_world; lia. Qed.

Lemma feed_reads evs s : (reads s.2 <= reads (feed cfg evs s).2.2)%nat.
Proof.
  revert s. induction evs as [|[ev fr] evs IH]; intros s; [reflexivity|].
  rewrite feed_cons.
  pose proof (Step_reads fr ev _ _ (trace_callback_Step fr ev s)) as Hstep.
  destruct (trace_callback cfg fr ev s) as [[a|e] s1]; simpl in *; [|exact Hstep].
  specialize (IH s1). lia.
Qed.

(** X12.  A request outside [TRACE_URL], from start to end.
    [process_request] returns no response, stamps the request with the
    current reading of the clock and installs the trace function.
    Whatever events reach the callback afterwards, [process_response]
    stores a document whose root is labelled with the method and the path,
    has the recorded [traces] as children, and whose range (the same for
    the document and for its root) runs from that stamp to a later
    reading: with a clock that never goes back, [start <= end]. *)
Theorem X12_traced_request_from_start_to_end req resp (evs : list (event * frame)) s :
  startswith (path req) (TRACE_URL cfg) = false ->
  template_ok (CACHE_PREFIX cfg) = true ->
  monotone_clock ->
  exists req' s1,
    process_request cfg req s = (Ok (req', None), s1)
    /\ tracing s1.2 = true
    /\ _speedtracer_start_time req' = Some (clock (reads s.2))
    /\ let s2 := (feed cfg evs s1).2 in
       exists resp' s3 key doc written ttl finish,
         process_response cfg req' resp s2 = (Ok resp', s3)
         /\ cache s3.2 !! key = Some (doc, written, ttl)
         /\ label (span_operation (frameStack doc)) = method req +:+ " " +:+ path req
         /\ children (frameStack doc) = traces s2.1
         /\ trace_range doc = _build_range (clock (reads s.2)) finish
         /\ span_range (frameStack doc) = _build_range (clock (reads s.2)) finish
         /\ float_leb (clock (reads s.2)) finish = true.
Proof.
  intros Hpre Hok Hmono. destruct s as [mw w].
  unfold process_request. rewrite Hpre. simpl.
  unfold bind, time_time, sys_settrace, modify, ret. simpl.
  eexists _, _. split; [reflexivity|]. simpl. split; [reflexivity|].
  split; [reflexivity|].
  pose proof (feed_reads evs (on_world (set_tracing true) (on_world tick (mw, w))))
    as Hreads.
  destruct (feed cfg evs (on_world (set_tracing true) (on_world tick (mw, w))))
    as [r [mw2 w2]].
  simpl in *.
  destruct (template_ok_format _ (uuid4 (uuids w2)) Hok) as [key Hkey].
  do 7 eexists.
  split; [apply process_response_traced; [reflexivity | exact Hkey]|].
  simpl. rewrite lookup_insert_eq. split; [reflexivity|]. simpl.
  repeat split. apply Hmono. lia.
Qed.

(** ** Cache keys *)

Lemma str_length_app a b :
  String.length (a +:+ b) = (String.length a + String.length b)%nat.
Proof. induction a as [|c a IH]; simpl; [reflexivity | now rewrite IH]. Qed.

Lemma str_app_inv_tail a b post : a +:+ post = b +:+ post -> a = b.
Proof.
  revert b. induction a as [|c a IH]; intros [|c' b]; simpl; intros H.
  - reflexivity.
  - apply (f_equal String.length) in H. rewrite !str_length_app in H. simpl in H. lia.
  - apply (f_equal String.length) in H. rewrite !str_length_app in H. simpl in H. lia.
  - injection H as -> H. f_equal. now apply IH.
Qed.

(** A well-formed template puts its argument between two fixed strings. *)
Lemma pct_scan_shape t pending used :
  template_scan t pending used = true ->
  exists pre post, forall arg,
    pct_scan t pending used arg
    = Ok (if used then pre else pre +:+ arg +:+ post).
Proof.
  revert pending used. induction t as [|c t IH]; intros pending used; simpl.
  - destruct pending, used; simpl; try discriminate. now exists "", "".
  - destruct pending.
    + destruct (Ascii.eqb c "s").
      * destruct used; simpl; [discriminate|]. intros H.
        destruct (IH _ _ H) as (pre & post & E).
        exists "", pre. intros arg. now rewrite E.
      * destruct (Ascii.eqb c "%"); [|discriminate]. intros H.
        destruct (IH _ _ H) as (pre & post & E).
        exists (String "%" pre), post. intros arg. rewrite E. now destruct used.
    + destruct (Ascii.eqb c "%"); intros H.
      * apply (IH _ _ H).
      * destruct (IH _ _ H) as (pre & post & E).
        exists (String c pre), post. intros arg. rewrite E. now destruct used.
Qed.

(** X13.  With a well-formed key template, two identifiers that get the
    same cache key are the same identifier: the documents of different
    traces are never stored under one key. *)
Theorem X13_cache_keys_are_injective a b key :
  template_ok (CACHE_PREFIX cfg) = true ->
  pct_format (CACHE_PREFIX cfg) a = Ok key ->
  pct_format (CACHE_PREFIX cfg) b = Ok key ->
  a = b.
Proof.
  intros Hok Ha Hb.
  destruct (pct_scan_shape _ _ _ Hok) as (pre & post & E).
  unfold pct_format in *. rewrite E in Ha, Hb.
  injection Ha as <-. injection Hb as Hb.
  apply String.app_inj in Hb. now apply str_app_inv_tail in Hb.
Qed.

(** ** Construction *)

(** X14.  Construction succeeds only when [SPEEDTRACER_FILE_FILTER_RE] is
    configured; the recorder then starts with no traces and an empty
    stack, and neither [INSTALLED_APPS] nor [sys.modules] plays a part:
    any other [sys.modules] gives the same middleware. *)
Theorem X14_construction_needs_a_configured_filter sys_modules mw :
  __init__ cfg sys_modules = Ok mw ->
  SPEEDTRACER_FILE_FILTER_RE cfg <> None
  /\ traces mw = [] /\ call_stack mw = []
  /\ forall sys_modules', __init__ cfg sys_modules' = Ok mw.
Proof.
  intros H.
  destruct (SPEEDTRACER_FILE_FILTER_RE cfg) as [[pattern|r]|] eqn:Hf.
  - unfold __init__ in *. rewrite Hf in *.
    destruct (re_compile pattern); [|discriminate].
    injection H as <-. now repeat split.
  - unfold __init__ in *. rewrite Hf in *. injection H as <-. now repeat split.
  - destruct (init_without_filter_raises cfg sys_modules Hf) as [e He]. congruence.
Qed.

(** ** Labels and identities *)

Lemma str_app_nil_r a : a +:+ "" = a.
Proof.
  induction a as [|c a IH]; [reflexivity|].
  change (String c (a +:+ "") = String c a). now rewrite IH.
Qed.

Lemma str_app_assoc a b c : (a +:+ b) +:+ c = a +:+ (b +:+ c).
Proof.
  induction a as [|x a IH]; [reflexivity|].
  change (String x ((a +:+ b) +:+ c) = String x (a +:+ (b +:+ c))). now rewrite IH.
Qed.

(** X15.  The label of a record always ends with the name of the function:
    the module and the class, when there are any, only come in front of
    it. *)
Theorem X15_label_ends_with_function_name (fr : frame) :
  exists front, label (operation_of fr) = front +:+ co_name fr.
Proof.
  unfold operation_of, make_label. cbn [label].
  destruct (co_name fr) as [|d n].
  - eexists. now rewrite str_app_nil_r.
  - destruct (default "" (f_module fr)) as [|a m];
      destruct (default "" (f_self_class fr)) as [|b c];
      cbn [List.filter nonempty String.concat].
    + now exists "".
    + exists (String b c +:+ "."). now rewrite str_app_assoc.
    + exists (String a m +:+ "."). now rewrite str_app_assoc.
    + exists (String a m +:+ "." +:+ String b c +:+ ".").
      now rewrite !str_app_assoc.
Qed.

Lemma allocs_debug_world ev fr w : allocs (debug_world cfg ev fr w) = allocs w.
Proof. unfold debug_world. now destruct (DEBUG cfg). Qed.

Lemma ids_attach ff tr below top r :
  map span_id (records (attach (recorder ff tr below) [set_range top r]))
  = map span_id (records (recorder ff tr (below ++ [top]))).
Proof.
  unfold attach, records. simpl.
  destruct (pop below) as [[b p]|] eqn:E; simpl.
  - apply pop_Some in E. subst below.
    rewrite !flat_map_app. simpl. rewrite !flat_map_app. simpl.
    rewrite !app_nil_r, !map_app. simpl. rewrite !map_app.
    destruct top, p. simpl. now rewrite <- !app_assoc.
  - apply pop_None in E. subst below. simpl.
    rewrite !flat_map_app. simpl. destruct top. simpl.
    now rewrite !app_nil_r, !map_app.
Qed.

(** The identities held are those of the records allocated since
    allocation number [first], in allocation order. *)
Lemma Step_ids first fr ev s r :
  Step cfg fr ev s r ->
  all_open (call_stack s.1) ->
  (exists k, allocs s.2 = (first + k)%nat
             /\ map span_id (records s.1) = map address (seq first k)) ->
  all_open (call_stack r.2.1)
  /\ exists k, allocs r.2.2 = (first + k)%nat
               /\ map span_id (records r.2.1) = map address (seq first k).
Proof.
  intros [ff tr st w Hrel|ff tr st w Hm ->|ff tr below top t w Hm -> Hr
         |ff tr w Hm ->|ff tr below top a b d w Hm -> Hr];
    intros Hopen (k & Hk & Hids); simpl in *; rewrite ?allocs_debug_world.
  - split; [exact Hopen | now exists k].
  - split.
    + apply Forall_app. split; [exact Hopen|]. apply Forall_singleton. now eexists.
    + exists (S k). split; [lia|].
      rewrite seq_S, map_app. simpl. rewrite <- Hk, <- Hids.
      unfold records. simpl. rewrite !flat_map_app, !map_app. simpl.
      now rewrite <- app_assoc.
  - split.
    + apply Forall_app in Hopen as [Hbelow _].
      now apply (all_open_attach (recorder ff tr below)).
    + exists k. split; [exact Hk|]. now rewrite ids_attach.
  - split; [exact Hopen | now exists k].
  - apply Forall_app in Hopen as [_ Htop].
    apply Forall_singleton in Htop as [t Ht]. congruence.
Qed.

(** X16.  Records keep distinct identities.  When [id] gives distinct
    values to distinct allocations, the records held after any events fed
    to a fresh recorder (at any depth, open or completed) all have
    different [id]s. *)
Theorem X16_record_ids_are_distinct (evs : list (event * frame)) mw w :
  (forall i j, address i = address j -> i = j) ->
  traces mw = [] ->
  call_stack mw = [] ->
  NoDup (map span_id (records (feed cfg evs (mw, w)).2.1)).
Proof.
  intros Hinj Htr Hst.
  assert (Hinv : forall evs s,
             all_open (call_stack s.1) ->
             (exists k, allocs s.2 = (allocs w + k)%nat
                        /\ map span_id (records s.1) = map address (seq (allocs w) k)) ->
             exists k, map span_id (records (feed cfg evs s).2.1)
                       = map address (seq (allocs w) k)).
  { clear evs. induction evs as [|[ev fr] evs IH]; intros s Hopen Hids.
    - destruct Hids as (k & _ & Hk). now exists k.
    - rewrite feed_cons.
      destruct (Step_ids (allocs w) fr ev _ _ (trace_callback_Step fr ev s) Hopen Hids)
        as [Hopen' Hids'].
      destruct (trace_callback cfg fr ev s) as [[a|e] s1]; simpl in *.
      + now apply IH.
      + destruct Hids' as (k & _ & Hk). now exists k. }
  destruct (Hinv evs (mw, w)) as [k ->].
  - simpl. rewrite Hst. constructor.
  - exists 0%nat. simpl. unfold records. rewrite Htr, Hst. split; [lia | reflexivity].
  - apply NoDup_fmap_2; [exact Hinj | apply NoDup_seq].
Qed.

(** ** From the first hook to the stored document *)

(** X17.  A request outside [TRACE_URL] handled by a fresh recorder, with
    the enter and exit events of a forest of calls on matching paths in
    between: the document stored under the key of the identifier named in
    [X-TraceUrl] has, under its root, exactly the call forest. *)
Theorem X17_stored_document_holds_the_call_forest req resp (cs : list call) mw w :
  startswith (path req) (TRACE_URL cfg) = false ->
  template_ok (CACHE_PREFIX cfg) = true ->
  traces mw = [] ->
  call_stack mw = [] ->
  forallb (all_frames (matches mw)) cs = true ->
  exists req' s1 s2 resp' s3 ident key doc written ttl,
    process_request cfg req (mw, w) = (Ok (req', None), s1)
    /\ feed cfg (flat_map (events_of (fun _ => true)) cs) s1 = (Ok tt, s2)
    /\ process_response cfg req' resp s2 = (Ok resp', s3)
    /\ headers resp' !! "x-traceurl" = Some ("X-TraceUrl", TRACE_URL cfg +:+ ident)
    /\ pct_format (CACHE_PREFIX cfg) ident = Ok key
    /\ cache s3.2 !! key = Some (doc, written, ttl)
    /\ trace_id doc = ident
    /\ map shape (children (frameStack doc)) = map call_tree cs.
Proof.
  intros Hpre Hok Htr Hst Hall.
  unfold process_request. rewrite Hpre. simpl.
  unfold bind, time_time, sys_settrace, modify, ret. simpl.
  destruct (runs_to_forest cfg (fun _ => true) cs) with
    (mw := mw) (w := set_tracing true (tick w)) as (done & w2 & E & S).
  { apply Forall_forall. intros c _. apply runs_to_call. }
  { reflexivity. }
  rewrite (recorded_all_forest _ _ Hall) in S.
  assert (Hmw : attach mw done = recorder (file_filter mw) done []).
  { unfold attach. now rewrite Hst, Htr. }
  rewrite Hmw in E.
  destruct (template_ok_format _ (uuid4 (uuids w2)) Hok) as [key Hkey].
  do 10 eexists.
  split; [reflexivity|].
  split; [exact E|].
  split; [apply process_response_traced; [reflexivity | exact Hkey]|].
  simpl. split; [apply lookup_insert_eq|].
  split; [exact Hkey|].
  rewrite lookup_insert_eq. split; [reflexivity|].
  split; [reflexivity | exact S].
Qed.

End Recorder_properties.

(** ** The further properties at the concrete run *)

Lemma X3_witness :
  stdout (feed demo_cfg_debug demo_run (demo_mw, demo_world)).2.2
  = stdout demo_world ++ debug_lines demo_cfg_debug (file_filter demo_mw) demo_run.
Proof.
  apply (X3_debug_prints_the_relevant_events demo_cfg_debug demo_run
           (demo_mw, demo_world)
           (feed demo_cfg_debug demo_run (demo_mw, demo_world)).2).
  reflexivity.
Defined.

Lemma X5_witness :
  length (records (feed demo_cfg demo_run (demo_mw, demo_world)).2.1)
  = (length (records demo_mw)
     + length (recorded_calls (file_filter demo_mw) demo_run))%nat.
Proof.
  apply (X5_one_record_per_recorded_call demo_cfg demo_run (demo_mw, demo_world)
           (feed demo_cfg demo_run (demo_mw, demo_world)).2).
  reflexivity.
Defined.

Lemma X6_witness :
  (feed demo_cfg demo_events (demo_mw, demo_world)).1
  = if balanced (file_filter demo_mw) (length (call_stack demo_mw)) demo_events
    then Ok tt else Raise TypeError.
Proof.
  apply (X6_feed_raises_iff_unbalanced demo_cfg demo_events demo_mw demo_world).
  constructor.
Defined.

Lemma X7_witness :
  let mw' := (feed demo_cfg demo_run (demo_mw, demo_world)).2.1 in
  in_order (traces mw') /\ Forall well_nested (completed mw').
Proof.
  apply (X7_recorded_ranges_are_nested demo_cfg demo_run demo_mw demo_world).
  - exact demo_clock_monotone.
  - reflexivity.
  - reflexivity.
Defined.

Lemma X8_witness :
  let top := opened page_handler demo_world in
  let mw := recorder ("/srv/app/" : @regex demo) [] ([] ++ [top]) in
  exists done w',
    feed demo_cfg (flat_map (events_of (fun _ => true)) demo_calls) (mw, demo_world)
    = (Ok tt,
       (recorder ("/srv/app/" : @regex demo) []
          ([] ++ [{| span_id := span_id top;
                     span_operation := span_operation top;
                     children := children top ++ done;
                     span_range := span_range top |}]),
        w'))
    /\ map shape done = flat_map (recorded (matches mw)) demo_calls.
Proof.
  apply (X8_open_record_swallows_later_calls demo_cfg (fun _ => true) demo_calls
           ("/srv/app/" : @regex demo) [] [] (opened page_handler demo_world) demo_world).
  reflexivity.
Defined.

Lemma X11_witness :
  let req := demo_request "/__speedtracer__/nothing" in
  exists r w1,
    process_request (J := demo_json) demo_cfg req (demo_mw, demo_world)
    = (Ok (req, Some r), (demo_mw, w1))
    /\ tracing w1 = tracing demo_world /\ cache w1 = cache demo_world
    /\ uuids w1 = uuids demo_world
    /\ process_response demo_cfg req r (demo_mw, w1)
       = (Ok r, (demo_mw, set_tracing false w1))
    /\ cache (set_tracing false w1) = cache demo_world.
Proof.
  apply (X11_retrieval_requests_are_not_traced (J := demo_json) demo_cfg
           (demo_request "/__speedtracer__/nothing") demo_mw demo_world);
    reflexivity.
Defined.

Lemma X12_witness :
  let req := demo_request "/app/page" in
  let s := (demo_mw, demo_world) in
  exists req' s1,
    process_request (J := demo_json) demo_cfg req s = (Ok (req', None), s1)
    /\ tracing s1.2 = true
    /\ _speedtracer_start_time req' = Some (clock (reads s.2))
    /\ let s2 := (feed demo_cfg demo_run s1).2 in
       exists resp' s3 key doc written ttl finish,
         process_response demo_cfg req' demo_response s2 = (Ok resp', s3)
         /\ cache s3.2 !! key = Some (doc, written, ttl)
         /\ label (span_operation (frameStack doc)) = method req +:+ " " +:+ path req
         /\ children (frameStack doc) = traces s2.1
         /\ trace_range doc = _build_range (clock (reads s.2)) finish
         /\ span_range (frameStack doc) = _build_range (clock (reads s.2)) finish
         /\ float_leb (clock (reads s.2)) finish = true.
Proof.
  apply (X12_traced_request_from_start_to_end (J := demo_json) demo_cfg
           (demo_request "/app/page") demo_response demo_run (demo_mw, demo_world)).
  - reflexivity.
  - reflexivity.
  - exact demo_clock_monotone.
Defined.

Lemma X13_witness : "u" = "u".
Proof.
  apply (X13_cache_keys_are_injective demo_cfg "u" "u" "speedtracer-u"); reflexivity.
Defined.

Lemma X14_witness :
  SPEEDTRACER_FILE_FILTER_RE demo_cfg <> None
  /\ traces demo_mw = [] /\ call_stack demo_mw = []
  /\ forall sys_modules', __init__ demo_cfg sys_modules' = Ok demo_mw.
Proof.
  apply (X14_construction_needs_a_configured_filter demo_cfg modules_package demo_mw).
  reflexivity.
Defined.

Lemma X16_witness :
  NoDup (map span_id (records (feed demo_cfg demo_run (demo_mw, demo_world)).2.1)).
Proof.
  apply (X16_record_ids_are_distinct demo_cfg demo_run demo_mw demo_world).
  - intros i j H. simpl in H. lia.
  - reflexivity.
  - reflexivity.
Defined.

Lemma X17_witness :
  let req := demo_request "/app/page" in
  exists req' s1 s2 resp' s3 ident key doc written ttl,
    process_request (J := demo_json) demo_cfg req (demo_mw, demo_world)
    = (Ok (req', None), s1)
    /\ feed demo_cfg (flat_map (events_of (fun _ => true)) demo_calls) s1 = (Ok tt, s2)
    /\ process_response demo_cfg req' demo_response s2 = (Ok resp', s3)
    /\ headers resp' !! "x-traceurl"
       = Some ("X-TraceUrl", TRACE_URL demo_cfg +:+ ident)
    /\ pct_format (CACHE_PREFIX demo_cfg) ident = Ok key
    /\ cache s3.2 !! key = Some (doc, written, ttl)
    /\ trace_id doc = ident
    /\ map shape (children (frameStack doc)) = map call_tree demo_calls.
Proof.
  apply (X17_stored_document_holds_the_call_forest (J := demo_json) demo_cfg
           (demo_request "/app/page") demo_response demo_calls demo_mw demo_world);
    reflexivity.
Defined.
